(** * HTTPProxy: a shallow embedding of [http_parser.py] and [server.py]

    Python [str] and [bytes] values are both sequences of 8-bit characters
    ([list ascii]); [encode] is the identity and [decode] accepts ASCII.
    A Python [dict] is an insertion-ordered association list, as CPython
    iterates it.  The socket layer of [server.py] is a state-and-exception
    monad over a [world] holding the scripted network events. *)

From Stdlib Require Import Ascii String List Bool ZArith Lia.
From Stdlib Require Import DecimalZ.
From Stdlib Require DecimalFacts.
Import ListNotations.

Open Scope list_scope.

(** ** Python text *)

Abbreviation str := (list ascii) (only parsing).
Abbreviation bytes := (list ascii) (only parsing).

(** Literal text, written as a Rocq string. *)
Definition s_ (x : string) : str := list_ascii_of_string x.

Definition CR : ascii := "013"%char.
Definition LF : ascii := "010"%char.
Definition SP : ascii := " "%char.
Definition COLON : ascii := ":"%char.
Definition CRLF : str := [CR; LF].
Definition CRLFCRLF : bytes := [CR; LF; CR; LF].
Definition LFLF : bytes := [LF; LF].

(** [str.isspace] on code points below 256. *)
Definition is_space (c : ascii) : bool :=
  let n := nat_of_ascii c in
  ((9 <=? n) && (n <=? 13)) || ((28 <=? n) && (n <=? 32))
  || (n =? 133) || (n =? 160).

(** [str.lstrip()], [str.rstrip()], [str.strip()]. *)
Fixpoint lstrip (s : str) : str :=
  match s with
  | [] => []
  | c :: t => if is_space c then lstrip t else s
  end.

Definition rstrip (s : str) : str := rev (lstrip (rev s)).

Definition strip (s : str) : str := rstrip (lstrip s).

(** [s.replace('\r\n', '\n')]. *)
Fixpoint replace_crlf (s : str) : str :=
  match s with
  | [] => []
  | c :: t =>
      if Ascii.eqb c CR then
        match t with
        | d :: t' => if Ascii.eqb d LF then LF :: replace_crlf t' else c :: replace_crlf t
        | [] => [c]
        end
      else c :: replace_crlf t
  end.

(** [s.replace('\r', '\n')]. *)
Definition replace_cr (s : str) : str :=
  map (fun c => if Ascii.eqb c CR then LF else c) s.

(** [s.split(sep)] for a one-character separator: never empty. *)
Fixpoint split_on (sep : ascii) (s : str) : list str :=
  match s with
  | [] => [[]]
  | c :: t =>
      if Ascii.eqb c sep then [] :: split_on sep t
      else match split_on sep t with
           | h :: r => (c :: h) :: r
           | [] => [[c]]
           end
  end.

(** [sep.join(xs)]. *)
Fixpoint join (sep : str) (xs : list str) : str :=
  match xs with
  | [] => []
  | [x] => x
  | x :: r => x ++ sep ++ join sep r
  end.

(** [s.split()]: maximal runs of non-whitespace. *)
Fixpoint split_ws_aux (s : str) (cur : str) : list str :=
  match s with
  | [] => match cur with [] => [] | _ => [rev cur] end
  | c :: t =>
      if is_space c then
        match cur with
        | [] => split_ws_aux t []
        | _ => rev cur :: split_ws_aux t []
        end
      else split_ws_aux t (c :: cur)
  end.

Definition split_ws (s : str) : list str := split_ws_aux s [].

(** The leading token of a string and what follows it. *)
Fixpoint span_token (s : str) : str * str :=
  match s with
  | [] => ([], [])
  | c :: t =>
      if is_space c then ([], s)
      else let (tok, rest) := span_token t in (c :: tok, rest)
  end.

(** [s.split(None, n)]: the remainder after [n] splits keeps its trailing
    whitespace, as in CPython. *)
Fixpoint split_max (n : nat) (s : str) : list str :=
  match lstrip s with
  | [] => []
  | s' =>
      match n with
      | O => [s']
      | S n' => let (tok, rest) := span_token s' in tok :: split_max n' rest
      end
  end.

(** [line.split(':', 1)] when [':' in line]. *)
Fixpoint split_first (sep : ascii) (s : str) : option (str * str) :=
  match s with
  | [] => None
  | c :: t =>
      if Ascii.eqb c sep then Some ([], t)
      else match split_first sep t with
           | Some (a, b) => Some (c :: a, b)
           | None => None
           end
  end.

(** [s.startswith(p)]. *)
Fixpoint startswith (p s : str) : bool :=
  match p, s with
  | [], _ => true
  | a :: p', b :: s' => Ascii.eqb a b && startswith p' s'
  | _ :: _, [] => false
  end.

(** [p in s] for strings and [s.find(p) != -1] for bytes. *)
Fixpoint contains (p s : str) : bool :=
  startswith p s || match s with [] => false | _ :: s' => contains p s' end.

(** [s.lower()]. *)
Definition lower_char (c : ascii) : ascii :=
  let n := nat_of_ascii c in
  if (65 <=? n) && (n <=? 90) then ascii_of_nat (n + 32) else c.

Definition lower (s : str) : str := map lower_char s.

(** [bytes.split(sep, 1)]. *)
Fixpoint split1 (sep s : bytes) : list bytes :=
  if startswith sep s then [[]; skipn (length sep) s]
  else match s with
       | [] => [[]]
       | c :: t =>
           match split1 sep t with
           | h :: r => (c :: h) :: r
           | [] => [[c]]
           end
       end.

(** ** Python integers as text *)

Fixpoint uint_to_str (u : Decimal.uint) : str :=
  match u with
  | Decimal.Nil => []
  | Decimal.D0 u => "0"%char :: uint_to_str u
  | Decimal.D1 u => "1"%char :: uint_to_str u
  | Decimal.D2 u => "2"%char :: uint_to_str u
  | Decimal.D3 u => "3"%char :: uint_to_str u
  | Decimal.D4 u => "4"%char :: uint_to_str u
  | Decimal.D5 u => "5"%char :: uint_to_str u
  | Decimal.D6 u => "6"%char :: uint_to_str u
  | Decimal.D7 u => "7"%char :: uint_to_str u
  | Decimal.D8 u => "8"%char :: uint_to_str u
  | Decimal.D9 u => "9"%char :: uint_to_str u
  end.

(** [str(z)] for a Python [int]. *)
Definition z_to_str (z : Z) : str :=
  match Z.to_int z with
  | Decimal.Pos u => uint_to_str u
  | Decimal.Neg u => "-"%char :: uint_to_str u
  end.

Definition digit_of (c : ascii) : option (Decimal.uint -> Decimal.uint) :=
  match nat_of_ascii c with
  | 48 => Some Decimal.D0 | 49 => Some Decimal.D1 | 50 => Some Decimal.D2
  | 51 => Some Decimal.D3 | 52 => Some Decimal.D4 | 53 => Some Decimal.D5
  | 54 => Some Decimal.D6 | 55 => Some Decimal.D7 | 56 => Some Decimal.D8
  | 57 => Some Decimal.D9 | _ => None
  end.

(** Decimal digits, an underscore allowed only between two digits. *)
Fixpoint parse_digits (s : str) : option Decimal.uint :=
  match s with
  | [] => None
  | c :: t =>
      match digit_of c with
      | None => None
      | Some d =>
          match t with
          | [] => Some (d Decimal.Nil)
          | u :: t' =>
              if Ascii.eqb u "_"%char then
                option_map d (parse_digits t')
              else option_map d (parse_digits t)
          end
      end
  end.

(** CPython's default [sys.get_int_max_str_digits()]: [int()] of a [str]
    with more digits than this raises [ValueError]. *)
Definition MAX_STR_DIGITS : nat := 4300.

(** The digits of [u], leading zeros included, once the limit is checked. *)
Definition int_of_digits (sign : Decimal.uint -> Decimal.int) (o : option Decimal.uint)
  : option Z :=
  match o with
  | Some u => if (Decimal.nb_digits u <=? MAX_STR_DIGITS)%nat then Some (Z.of_int (sign u)) else None
  | None => None
  end.

(** [int(s)] on a [str] in base 10: [None] is the [ValueError], for text
    that is no integer and for more than [MAX_STR_DIGITS] digits (the
    underscores and the sign do not count). *)
Definition py_int (s : str) : option Z :=
  match strip s with
  | c :: t =>
      if Ascii.eqb c "-"%char then int_of_digits Decimal.Neg (parse_digits t)
      else if Ascii.eqb c "+"%char then int_of_digits Decimal.Pos (parse_digits t)
      else int_of_digits Decimal.Pos (parse_digits (c :: t))
  | [] => None
  end.

(** The number of decimal digits of [str(c)], the sign apart. *)
Definition int_digits (c : Z) : nat :=
  match Z.to_int c with Decimal.Pos u | Decimal.Neg u => Decimal.nb_digits u end.

(** ** [http_parser.py]: the [HTTPHeader] class *)

(** A Python [dict] from header name to value, in insertion order. *)
Definition dict := list (str * str).

Fixpoint dict_get (k : str) (d : dict) : option str :=
  match d with
  | [] => None
  | (k', v) :: r => if list_eq_dec ascii_dec k k' then Some v else dict_get k r
  end.

(** [d[k] = v]: an existing key keeps its position. *)
Fixpoint dict_set (k v : str) (d : dict) : dict :=
  match d with
  | [] => [(k, v)]
  | (k', v') :: r =>
      if list_eq_dec ascii_dec k k' then (k', v) :: r else (k', v') :: dict_set k v r
  end.

(** [if key in d: del d[key]]. *)
Fixpoint dict_del (k : str) (d : dict) : dict :=
  match d with
  | [] => []
  | (k', v') :: r => if list_eq_dec ascii_dec k k' then r else (k', v') :: dict_del k r
  end.

Record HTTPHeader := mkHeader {
  method : option str;
  path : option str;
  version : str;
  status_code : option Z;
  status_message : option str;
  headers : dict;
  body : option str;
  is_request : bool
}.

(** The attributes [__init__] sets before calling [_parse]. *)
Definition init_header : HTTPHeader :=
  mkHeader None None (s_ "HTTP/1.1") None None [] None true.

Definition set_method (m : str) (h : HTTPHeader) : HTTPHeader :=
  mkHeader (Some m) h.(path) h.(version) h.(status_code) h.(status_message)
           h.(headers) h.(body) true.
Definition set_path (p : str) (h : HTTPHeader) : HTTPHeader :=
  mkHeader h.(method) (Some p) h.(version) h.(status_code) h.(status_message)
           h.(headers) h.(body) h.(is_request).
Definition set_version (v : str) (h : HTTPHeader) : HTTPHeader :=
  mkHeader h.(method) h.(path) v h.(status_code) h.(status_message)
           h.(headers) h.(body) h.(is_request).
(** [self.status_code = ...] as assigned by [_parse_status_line]. *)
Definition put_status_code (c : option Z) (h : HTTPHeader) : HTTPHeader :=
  mkHeader h.(method) h.(path) h.(version) c h.(status_message)
           h.(headers) h.(body) h.(is_request).
Definition set_status_message (m : str) (h : HTTPHeader) : HTTPHeader :=
  mkHeader h.(method) h.(path) h.(version) h.(status_code) (Some m)
           h.(headers) h.(body) h.(is_request).
Definition set_header (k v : str) (h : HTTPHeader) : HTTPHeader :=
  mkHeader h.(method) h.(path) h.(version) h.(status_code) h.(status_message)
           (dict_set k v h.(headers)) h.(body) h.(is_request).
Definition remove_header (k : str) (h : HTTPHeader) : HTTPHeader :=
  mkHeader h.(method) h.(path) h.(version) h.(status_code) h.(status_message)
           (dict_del k h.(headers)) h.(body) h.(is_request).
Definition set_body (b : str) (h : HTTPHeader) : HTTPHeader :=
  mkHeader h.(method) h.(path) h.(version) h.(status_code) h.(status_message)
           h.(headers) (Some b) h.(is_request).
(** [add_header]: an alias of [set_header]. *)
Definition add_header (k v : str) (h : HTTPHeader) : HTTPHeader := set_header k v h.
(** [set_status_code]: also marks the message a response. *)
Definition set_status_code (c : Z) (h : HTTPHeader) : HTTPHeader :=
  mkHeader h.(method) h.(path) h.(version) (Some c) h.(status_message)
           h.(headers) h.(body) false.
(** [self.is_request = ...] as assigned by [_parse]. *)
Definition put_is_request (b : bool) (h : HTTPHeader) : HTTPHeader :=
  mkHeader h.(method) h.(path) h.(version) h.(status_code) h.(status_message)
           h.(headers) h.(body) b.

Definition get_header (k : str) (h : HTTPHeader) : option str := dict_get k h.(headers).

(** [self.method = ...] and [self.path = ...] as assigned by the parser. *)
Definition put_method (m : str) (h : HTTPHeader) : HTTPHeader :=
  mkHeader (Some m) h.(path) h.(version) h.(status_code) h.(status_message)
           h.(headers) h.(body) h.(is_request).

(** [_parse_request_line]. *)
Definition parse_request_line (line : str) (h : HTTPHeader) : HTTPHeader :=
  match split_ws line with
  | [] => h
  | [m] => put_method m h
  | [m; p] => set_path p (put_method m h)
  | m :: p :: v :: _ => set_version v (set_path p (put_method m h))
  end.

(** [_parse_status_line]. *)
Definition parse_status_line (line : str) (h : HTTPHeader) : HTTPHeader :=
  match split_max 2 line with
  | [] => h
  | [v] => set_version v h
  | [v; c] => put_status_code (py_int c) (set_version v h)
  | v :: c :: m :: _ => set_status_message m (put_status_code (py_int c) (set_version v h))
  end.

(** The [while i < len(lines)] loop of [_parse], over [lines[i:]]. *)
Fixpoint parse_header_lines (ls : list str) (h : HTTPHeader) : HTTPHeader :=
  match ls with
  | [] => h
  | l :: rest =>
      match strip l with
      | [] => match rest with [] => h | _ => set_body (join [LF] rest) h end
      | line =>
          let h' := match split_first COLON line with
                    | Some (key, value) => set_header (strip key) (strip value) h
                    | None => h
                    end in
          parse_header_lines rest h'
      end
  end.

(** [_parse]. *)
Definition parse_into (s : str) (h : HTTPHeader) : HTTPHeader :=
  match s with
  | [] => h
  | _ =>
      let normalized := replace_cr (replace_crlf s) in
      match split_on LF normalized with
      | [] => h
      | l0 :: rest =>
          let first_line := strip l0 in
          let h1 := if startswith (s_ "HTTP/") first_line
                    then put_is_request false (parse_status_line first_line h)
                    else put_is_request true (parse_request_line first_line h) in
          parse_header_lines rest h1
      end
  end.

(** [HTTPHeader(header_string)]: the spec's Parse. *)
Definition parse (s : str) : HTTPHeader := parse_into s init_header.

(** Python's [x or default] on an optional string. *)
Definition str_or (x : option str) (d : str) : str :=
  match x with Some ((_ :: _) as v) => v | _ => d end.

(** [self.status_code or 200]. *)
Definition code_or (x : option Z) (d : Z) : Z :=
  match x with Some c => if Z.eqb c 0 then d else c | None => d end.

Definition header_line (kv : str * str) : str := fst kv ++ s_ ": " ++ snd kv.

(** [generate_header]: the spec's Serialize.  CPython's [f"{code}"] raises
    [ValueError] for an [int] of more than [MAX_STR_DIGITS] digits, which
    [z_to_str] does not model; the codes [_parse] produces stay within the
    limit ([parse_status_code_digits]). *)
Definition generate_header (h : HTTPHeader) : str :=
  let first :=
    if h.(is_request)
    then str_or h.(method) (s_ "GET") ++ [SP] ++ str_or h.(path) (s_ "/") ++ [SP] ++ h.(version)
    else h.(version) ++ [SP] ++ z_to_str (code_or h.(status_code) 200) ++ [SP]
         ++ str_or h.(status_message) (s_ "OK") in
  let body_lines := match h.(body) with Some ((_ :: _) as b) => [b] | _ => [] end in
  join CRLF ((first :: map header_line h.(headers)) ++ [[]] ++ body_lines).

(** The attribute names an [HTTPHeader] instance has: its fields and the
    methods the class defines. *)
Definition HTTPHeader_attributes : list string :=
  ["method"; "path"; "version"; "status_code"; "status_message"; "headers";
   "body"; "is_request"; "__init__"; "_parse"; "_parse_request_line";
   "_parse_status_line"; "get_method"; "get_path"; "get_version";
   "get_status_code"; "get_status_message"; "get_header"; "get_all_headers";
   "get_body"; "set_method"; "set_path"; "set_version"; "set_status_code";
   "set_status_message"; "set_header"; "add_header"; "remove_header";
   "set_body"; "generate_header"; "__str__"; "__repr__"]%string.

(** ** [server.py]: exceptions, sockets and the world of one connection *)

(** The exceptions the code raises or catches; [TimeoutError] is also
    [socket.timeout].  [KeyboardInterrupt], which only a signal raises, is
    not modelled. *)
Inductive exn :=
| TimeoutError
| ConnectionResetError
| ConnectionRefusedError
| OverflowError
| OSError
| AttributeError (name : string)
| IndexError
| ValueError
| TypeError
| UnicodeDecodeError.

(** The sockets one connection involves: [server]'s listening socket, the
    accepted [client_socket] and the [dest_socket] that [worker] creates. *)
Inductive sock := Listener | Client | Dest.

Definition sock_eqb (a b : sock) : bool :=
  match a, b with
  | Listener, Listener | Client, Client | Dest, Dest => true
  | _, _ => false
  end.

(** What the peer of a socket delivers, in order: bytes or a reset. *)
Inductive chunk := Data (d : bytes) | Reset.

(** One socket: whether it is open, what its peer still delivers, whether
    the peer has shut its side once [inbox] is drained ([recv] then returns
    [b""]; otherwise it times out), and everything sent on it. *)
Record endpoint := mkEndpoint {
  is_open : bool;
  inbox : list chunk;
  eof : bool;
  sent : bytes
}.

Record world := mkWorld {
  sockets : list sock;                 (** the global list [sockets] *)
  listener : endpoint;
  client : endpoint;
  dest : endpoint;
  connected : option (str * Z);        (** the address [dest_socket] connected to *)
  reachable : str -> Z -> bool         (** the hosts a [connect] reaches *)
}.

Definition ep (s : sock) (w : world) : endpoint :=
  match s with Listener => w.(listener) | Client => w.(client) | Dest => w.(dest) end.

Definition put_ep (s : sock) (e : endpoint) (w : world) : world :=
  match s with
  | Listener => mkWorld w.(sockets) e w.(client) w.(dest) w.(connected) w.(reachable)
  | Client => mkWorld w.(sockets) w.(listener) e w.(dest) w.(connected) w.(reachable)
  | Dest => mkWorld w.(sockets) w.(listener) w.(client) e w.(connected) w.(reachable)
  end.

Definition put_sockets (l : list sock) (w : world) : world :=
  mkWorld l w.(listener) w.(client) w.(dest) w.(connected) w.(reachable).

Definition put_connected (a : str * Z) (w : world) : world :=
  mkWorld w.(sockets) w.(listener) w.(client) w.(dest) (Some a) w.(reachable).

(** *** A state and exception monad *)

(** [NoFuel] marks a run cut short by the fuel bound of a [while] loop. *)
Inductive res (A : Type) := Ok (a : A) | Raise (e : exn) | NoFuel.
Arguments Ok {A} a.
Arguments Raise {A} e.
Arguments NoFuel {A}.

Definition M (A : Type) : Type := world -> world * res A.

Definition ret {A} (a : A) : M A := fun w => (w, Ok a).

Definition bind {A B} (m : M A) (k : A -> M B) : M B :=
  fun w =>
    let (w1, r) := m w in
    match r with
    | Ok a => k a w1
    | Raise e => (w1, Raise e)
    | NoFuel => (w1, NoFuel)
    end.

Notation "x <- m ;; k" := (bind m (fun x => k))
  (at level 61, m at next level, right associativity).
Notation "m ;; k" := (bind m (fun _ => k)) (at level 61, right associativity).

Definition raise {A} (e : exn) : M A := fun w => (w, Raise e).
Definition out_of_fuel {A} : M A := fun w => (w, NoFuel).
Definition lift {A} (r : res A) : M A := fun w => (w, r).

(** [try: m except E: h], [caught] telling which exceptions [E] names. *)
Definition try_except {A} (m : M A) (caught : exn -> bool) (h : exn -> M A) : M A :=
  fun w =>
    let (w1, r) := m w in
    match r with
    | Raise e => if caught e then h e w1 else (w1, Raise e)
    | _ => (w1, r)
    end.

(** [try: m finally: f]: an exception of [f] replaces the outcome of [m]. *)
Definition try_finally {A} (m : M A) (f : M unit) : M A :=
  fun w =>
    let (w1, r) := m w in
    match r with
    | NoFuel => (w1, NoFuel)
    | _ =>
        let (w2, r2) := f w1 in
        match r2 with Ok _ => (w2, r) | Raise e => (w2, Raise e) | NoFuel => (w2, NoFuel) end
    end.

Definition any_exn (e : exn) : bool := true.
Definition is_timeout (e : exn) : bool := match e with TimeoutError => true | _ => false end.
Definition is_timeout_or_reset (e : exn) : bool :=
  match e with TimeoutError | ConnectionResetError => true | _ => false end.

(** *** Socket operations *)

Definition BUF_SIZE : nat := 1024.

(** [sock.recv(n)] on an open socket: at most [n] bytes of the next
    segment; [b""] once the peer has shut its side; [TimeoutError] when the
    peer stays silent past the socket's timeout. *)
Fixpoint recv_from (n : nat) (l : list chunk) (fin : bool) : list chunk * res bytes :=
  match l with
  | [] => ([], if fin then Ok [] else Raise TimeoutError)
  | Data [] :: r => recv_from n r fin
  | Data d :: r =>
      (if length d <=? n then r else Data (skipn n d) :: r, Ok (firstn n d))
  | Reset :: r => (r, Raise ConnectionResetError)
  end.

Definition recv (s : sock) (n : nat) : M bytes :=
  fun w =>
    let e := ep s w in
    if e.(is_open) then
      let (l, r) := recv_from n e.(inbox) e.(eof) in
      (put_ep s (mkEndpoint true l e.(eof) e.(sent)) w, r)
    else (w, Raise OSError).

(** [sock.send(data)]: the data is appended to what the peer receives. *)
Definition send (s : sock) (d : bytes) : M unit :=
  fun w =>
    let e := ep s w in
    if e.(is_open) then (put_ep s (mkEndpoint true e.(inbox) e.(eof) (e.(sent) ++ d)) w, Ok tt)
    else (w, Raise OSError).

(** [sock.close()]: closing twice is harmless. *)
Definition close (s : sock) : M unit :=
  fun w => let e := ep s w in
           (put_ep s (mkEndpoint false e.(inbox) e.(eof) e.(sent)) w, Ok tt).

Definition settimeout (s : sock) : M unit :=
  fun w => if (ep s w).(is_open) then (w, Ok tt) else (w, Raise OSError).

(** A peer with data pending, a reset or a shut side is readable. *)
Fixpoint pending (l : list chunk) (fin : bool) : bool :=
  match l with
  | [] => fin
  | Data [] :: r => pending r fin
  | _ :: _ => true
  end.

(** Whether the next [recv] from a peer that sent [l] fails with a reset:
    the first non-empty chunk is a reset. *)
Fixpoint reset_next (l : list chunk) : bool :=
  match l with
  | [] => false
  | Data [] :: r => reset_next r
  | Data _ :: _ => false
  | Reset :: _ => true
  end.

Definition readable (s : sock) (w : world) : bool :=
  pending (ep s w).(inbox) (ep s w).(eof).

(** [select.select([client_socket, dest_socket], [], [], .0001)], read as
    the pair (client readable, destination readable). *)
Definition select2 : M (bool * bool) :=
  fun w =>
    if (ep Client w).(is_open) && (ep Dest w).(is_open)
    then (w, Ok (readable Client w, readable Dest w))
    else (w, Raise ValueError).

(** [dest_socket.connect((host, port))]. *)
Definition connect (a : str * Z) : M unit :=
  fun w =>
    if negb (ep Dest w).(is_open) then (w, Raise OSError)
    else if negb ((0 <=? snd a) && (snd a <=? 65535))%Z then (w, Raise OverflowError)
    else if w.(reachable) (fst a) (snd a) then (put_connected a w, Ok tt)
    else (w, Raise ConnectionRefusedError).

Fixpoint remove_first (s : sock) (l : list sock) : list sock :=
  match l with
  | [] => []
  | x :: r => if sock_eqb s x then r else x :: remove_first s r
  end.

(** [cleanup_socket(sock)]: leave the global list, then close. *)
Definition cleanup_socket (s : sock) : M unit :=
  (fun w => (put_sockets (remove_first s w.(sockets)) w, Ok tt)) ;; close s.

(** [dest_socket = socket.socket(...)] and [sockets.append(dest_socket)]. *)
Definition open_dest : M unit :=
  fun w =>
    let e := ep Dest w in
    (put_sockets (w.(sockets) ++ [Dest]) (put_ep Dest (mkEndpoint true e.(inbox) e.(eof) e.(sent)) w),
     Ok tt).

(** [bytes.decode()], on the ASCII text this development represents. *)
Definition decode (b : bytes) : res str :=
  if forallb (fun c => nat_of_ascii c <? 128) b then Ok b else Raise UnicodeDecodeError.

(** Looking up a method on an [HTTPHeader]: [AttributeError] when the class
    defines none of that name. *)
Definition lookup_attr (name : string) : M unit :=
  if existsb (String.eqb name) HTTPHeader_attributes then ret tt
  else raise (AttributeError name).

(** *** [server.py]: resolution and the header rewrites *)

(** Python's [x or y] on optional strings: [None] and [""] are false. *)
Definition py_or (x y : option str) : option str :=
  match x with Some (_ :: _) => x | _ => y end.

Definition truthy (x : option str) : bool :=
  match x with Some (_ :: _) => true | _ => false end.

Definition has_colon (s : str) : bool := existsb (Ascii.eqb COLON) s.

(** [get_host_port(header)]. *)
Definition get_host_port (h : HTTPHeader) : res (str * Z) :=
  match py_or (get_header (s_ "Host") h) (get_header (s_ "host") h) with
  | None => Raise TypeError                       (* [':' in None] *)
  | Some d =>
      if has_colon d then
        match split_on COLON d with
        | [host; port] =>
            match py_int port with Some p => Ok (host, p) | None => Raise ValueError end
        | _ => Raise ValueError                     (* [host, port = ...] unpacking *)
        end
      else
        match h.(path) with
        | None => Raise (AttributeError "lower")    (* [None.lower()] *)
        | Some p => Ok (d, if contains (s_ "https://") (lower p) then 443%Z else 80%Z)
        end
  end.

(** [worker], lines 143-146. *)
Definition worker_rewrite (h : HTTPHeader) : HTTPHeader :=
  let h1 := set_version (s_ "HTTP/1.0") (set_header (s_ "Connection") (s_ "close") h) in
  if truthy (get_header (s_ "Proxy-Connection") h1)
  then set_header (s_ "Proxy-Connection") (s_ "close") h1 else h1.

(** [process_non_connection_request], lines 254-256, on the request (not
    reached: line 253 raises first). *)
Definition rewrite_request (h : HTTPHeader) : HTTPHeader :=
  set_header (s_ "Proxy-Connection") (s_ "close")
    (set_version (s_ "HTTP/1.0") (set_header (s_ "Connection") (s_ "close") h)).

(** [process_non_connection_request], lines 302-304, on the response (not
    reached either). *)
Definition rewrite_response (h : HTTPHeader) : HTTPHeader :=
  set_header (s_ "Proxy-Connection") (s_ "close")
    (set_header (s_ "Connection") (s_ "close") (set_version (s_ "HTTP/1.0") h)).

(** *** [server.py]: the per-connection functions *)

Definition OK_RESPONSE : bytes := s_ "HTTP/1.0 200 Connection Established" ++ CRLFCRLF.
Definition BAD_GATEWAY : bytes := s_ "HTTP/1.0 502 Bad Gateway" ++ CRLFCRLF.

(** One side of an iteration of the relay loop (lines 207-213 or 214-220):
    read from [src] and write to [dst]; [true] when the loop breaks. *)
Definition relay_step (src dst : sock) : M bool :=
  data <- recv src BUF_SIZE ;;
  match data with
  | [] => close Client ;; close Dest ;; ret true
  | _ => send dst data ;; ret false
  end.

(** The [while True] loop of [process_connection_request], lines 205-220. *)
Fixpoint relay (fuel : nat) : M unit :=
  match fuel with
  | O => out_of_fuel
  | S f =>
      has_data <- select2 ;;
      brk <- (if fst has_data then relay_step Client Dest else ret false) ;;
      if brk then ret tt else
      brk2 <- (if snd has_data then relay_step Dest Client else ret false) ;;
      if brk2 then ret tt else relay f
  end.

(** [process_connection_request(client_socket, dest_socket, header)]. *)
Definition process_connection_request (fuel : nat) (h : HTTPHeader) : M unit :=
  try_finally
    (try_except
       (hp <- lift (get_host_port h) ;;
        ok <- try_except (connect hp ;; settimeout Dest ;; ret true) any_exn
                (fun _ => send Client BAD_GATEWAY ;;
                          cleanup_socket Dest ;; cleanup_socket Client ;; ret false) ;;
        if ok then send Client OK_RESPONSE ;; relay fuel else ret tt)
       any_exn (fun _ => ret tt))
    (cleanup_socket Dest ;; cleanup_socket Client).

(** Lines 264-276: [client_payload] stays [b""], so only a timeout, an empty
    read or an exception ends the loop. *)
Fixpoint forward_body (fuel : nat) (client_payload : bytes) : M unit :=
  match fuel with
  | O => out_of_fuel
  | S f =>
      if contains CRLFCRLF client_payload then ret tt else
      r <- try_except (d <- recv Client BUF_SIZE ;; ret (Some d)) is_timeout
             (fun _ => ret None) ;;
      match r with
      | None | Some [] => ret tt
      | Some data => send Dest data ;; forward_body f client_payload
      end
  end.

(** Lines 279-296: the response header from the destination. *)
Fixpoint read_response (fuel : nat) (resp_buf : bytes) : M bytes :=
  match fuel with
  | O => out_of_fuel
  | S f =>
      if contains CRLFCRLF resp_buf then ret resp_buf else
      r <- try_except (d <- recv Dest BUF_SIZE ;; ret (Some d)) is_timeout
             (fun _ => ret None) ;;
      match r with
      | None | Some [] => ret resp_buf
      | Some response => read_response f (resp_buf ++ response)
      end
  end.

(** Lines 319-331: the rest of the payload. *)
Fixpoint relay_payload (fuel : nat) : M unit :=
  match fuel with
  | O => out_of_fuel
  | S f =>
      r <- try_except (d <- recv Dest BUF_SIZE ;; ret (Some d)) is_timeout
             (fun _ => ret None) ;;
      match r with
      | None | Some [] => ret tt
      | Some response => send Client response ;; relay_payload f
      end
  end.

(** [lst[1]]. *)
Definition index1 {A} (l : list A) : res A :=
  match l with _ :: x :: _ => Ok x | _ => Raise IndexError end.

(** [process_non_connection_request(client_socket, dest_socket, header,
    packet_buf)].  [header.change_path_to_relative()] is a method lookup
    on [HTTPHeader]; [resp_buf.split(b"\r\n\r\n")[0]] is the first piece
    of [split1]. *)
Definition process_non_connection_request (fuel : nat) (h : HTTPHeader) (packet_buf : bytes)
  : M unit :=
  try_finally
    (try_except
       (hp <- lift (get_host_port h) ;;
        connect hp ;; settimeout Dest ;; settimeout Client ;;
        lookup_attr "change_path_to_relative" ;;
        let h1 := rewrite_request h in
        send Dest (generate_header h1 ++ packet_buf) ;;
        (if truthy (get_header (s_ "Content-Length") h1)
            || truthy (get_header (s_ "Transfer-Encoding") h1)
         then forward_body fuel [] else ret tt) ;;
        resp_buf <- read_response fuel [] ;;
        let raw_header := hd [] (split1 CRLFCRLF resp_buf) in
        rest <- lift (index1 (split1 CRLFCRLF resp_buf)) ;;
        text <- lift (decode raw_header) ;;
        let rh := rewrite_response (parse text) in
        send Client (generate_header rh) ;;
        send Client rest ;;
        let content_length := get_header (s_ "Content-Length") rh in
        more <- (if truthy content_length
                 then match py_int (match content_length with Some c => c | None => [] end) with
                      | Some n => ret (Z.of_nat (length rest) <? n)%Z
                      | None => raise ValueError
                      end
                 else ret false) ;;
        if more || truthy (get_header (s_ "Transfer-Encoding") rh)
        then relay_payload fuel else ret tt)
       any_exn (fun _ => ret tt))
    (cleanup_socket Dest ;; cleanup_socket Client).

(** The header loop of [worker], lines 113-118, with its [delim]. *)
Fixpoint read_header (fuel : nat) (delim packet_buf : bytes) : M (bytes * bytes) :=
  match fuel with
  | O => out_of_fuel
  | S f =>
      if negb (contains delim packet_buf) && negb (contains LFLF packet_buf) then
        let delim' := if contains LFLF packet_buf then LFLF else delim in
        d <- recv Client BUF_SIZE ;;
        read_header f delim' (packet_buf ++ d)
      else ret (delim, packet_buf)
  end.

(** [worker(client_socket, client_address)]; printing has no effect here. *)
Definition worker (fuel : nat) : M unit :=
  r <- try_except (dp <- read_header fuel CRLFCRLF [] ;; ret (Some dp)) is_timeout_or_reset
         (fun _ => cleanup_socket Client ;; ret None) ;;
  match r with
  | None => ret tt
  | Some (delim, buf) =>
      let parts := split1 delim buf in
      let raw_header := hd [] parts in
      packet_buf <- lift (index1 parts) ;;
      text <- lift (decode raw_header) ;;
      let header := worker_rewrite (parse text) in
      lookup_attr "to_output" ;;
      open_dest ;;
      if match header.(method) with
         | Some m => if list_eq_dec ascii_dec m (s_ "CONNECT") then true else false
         | None => false
         end
      then process_connection_request fuel header
      else process_non_connection_request fuel header packet_buf
  end.

(** *** [server.py]: the socket list, [server] and [main] *)

(** [add_socket(sock)]. *)
Definition add_socket (s : sock) : M unit :=
  fun w => (put_sockets (w.(sockets) ++ [s]) w, Ok tt).

(** The [for sock in sockets: sock.close()] loop of [cleanup_all_sockets]. *)
Fixpoint close_each (l : list sock) : M unit :=
  match l with
  | [] => ret tt
  | s :: r => close s ;; close_each r
  end.

(** [cleanup_all_sockets()]: close every socket of the list, then clear it. *)
Definition cleanup_all_sockets : M unit :=
  fun w => (close_each w.(sockets) ;; (fun w1 => (put_sockets [] w1, Ok tt))) w.

(** The [finally] block of [server], lines 93-95. *)
Definition server_shutdown : M unit := close Listener ;; cleanup_all_sockets.

Definition MIN_PORT : Z := 1024.
Definition MAX_PORT : Z := 65535.

(** How [main(args)] ends: [usage(args)] and [sys.exit()], the
    [Invalid port number] message and [sys.exit()], a call of [server(port)],
    or an exception of [int(args[1])]. *)
Inductive main_outcome :=
| Usage
| InvalidPort (port : Z)
| Serve (port : Z)
| MainRaise (e : exn).

(** [main(args)]. *)
Definition main (args : list str) : main_outcome :=
  if negb (length args =? 2)%nat then Usage else
  match py_int (nth 1 args []) with
  | None => MainRaise ValueError
  | Some port =>
      if (port <? MIN_PORT)%Z || (port >? MAX_PORT)%Z then InvalidPort port else Serve port
  end.

(** *** Sample inputs *)

(** The request of the forwarding scenario, with CRLF and with LF line ends. *)
Definition sample_request : bytes :=
  s_ "GET http://example.com/page HTTP/1.1" ++ CRLF ++ s_ "Host: example.com" ++ CRLFCRLF.
Definition sample_request_lf : bytes :=
  s_ "GET http://example.com/page HTTP/1.1" ++ [LF] ++ s_ "Host: example.com" ++ LFLF.
(** The scenario's request with a [Proxy-Connection] header. *)
Definition sample_request_pc : bytes :=
  s_ "GET http://example.com/page HTTP/1.1" ++ CRLF ++ s_ "Host: example.com" ++ CRLF
  ++ s_ "Proxy-Connection: keep-alive" ++ CRLFCRLF.
Definition sample_response : bytes :=
  s_ "HTTP/1.1 200 OK" ++ CRLF ++ s_ "Content-Length: 2" ++ CRLFCRLF ++ s_ "hi".
Definition sample_connect : HTTPHeader :=
  parse (s_ "CONNECT example.com:443 HTTP/1.1" ++ CRLF ++ s_ "Host: example.com:443" ++ CRLFCRLF).
Definition sample_ipv6 : HTTPHeader :=
  parse (s_ "GET http://[::1]:8080/ HTTP/1.1" ++ CRLF ++ s_ "Host: [::1]:8080" ++ CRLFCRLF).
Definition sample_lower_host : HTTPHeader :=
  parse (s_ "GET http://example.com/ HTTP/1.1" ++ CRLF ++ s_ "host: example.com" ++ CRLFCRLF).
Definition sample_no_host : HTTPHeader :=
  parse (s_ "GET http://example.com/ HTTP/1.1" ++ CRLF ++ s_ "Accept: */*" ++ CRLFCRLF).
Definition sample_port : HTTPHeader :=
  parse (s_ "GET http://example.com:8443/ HTTP/1.1" ++ CRLF ++ s_ "Host: example.com:8443"
         ++ CRLFCRLF).
Definition sample_lower_ipv6 : HTTPHeader :=
  parse (s_ "GET http://[::1]:8080/ HTTP/1.1" ++ CRLF ++ s_ "host: [::1]:8080" ++ CRLFCRLF).
(** A port of 4301 digits, one more than [int()] accepts. *)
Definition long_port : str := repeat "1"%char (S MAX_STR_DIGITS).
Definition sample_long_port : HTTPHeader :=
  parse (s_ "GET http://a/ HTTP/1.1" ++ CRLF ++ s_ "Host: a:" ++ long_port ++ CRLFCRLF).
Definition sample_https_upper : HTTPHeader :=
  parse (s_ "GET HTTPS://example.com/ HTTP/1.1" ++ CRLF ++ s_ "Host: example.com" ++ CRLFCRLF).

Definition open_ep (l : list chunk) (fin : bool) : endpoint := mkEndpoint true l fin [].

(** A connection just accepted: the client has sent [req]; the destination,
    once connected, answers [resp] and shuts its side. *)
Definition accepted_world (req resp : bytes) : world :=
  mkWorld [Listener] (open_ep [] false) (open_ep [Data req] false)
          (mkEndpoint false [Data resp] true []) None (fun _ _ => true).

(** The destination has shut its side; the client has sent [l]. *)
Definition dest_shut_world (l : list chunk) : world :=
  mkWorld [Listener; Dest] (open_ep [] false) (open_ep l false) (open_ep [] true)
          None (fun _ _ => true).

(** Both sockets open and the destination registered, as [worker] hands
    them to a handler. *)
Definition handler_world : world :=
  mkWorld [Listener; Dest] (open_ep [] false)
          (open_ep [Data (s_ "abc"); Data (s_ "de")] true)
          (open_ep [Data (s_ "xyz")] false) None (fun _ _ => true).

(** ** Facts about the text primitives *)

Definition nonspace (c : ascii) : Prop := is_space c = false.

(** No leading whitespace. *)
Definition nlw (s : str) : Prop :=
  match s with [] => True | c :: _ => nonspace c end.

(** No trailing whitespace. *)
Definition ntw (s : str) : Prop := nlw (rev s).

(** A token of [str.split()]: non-empty, without whitespace. *)
Definition token (t : str) : Prop := t <> [] /\ Forall nonspace t.

Definition noCR (s : str) : Prop := Forall (fun c => c <> CR) s.
Definition noLF (s : str) : Prop := Forall (fun c => c <> LF) s.

Lemma CR_space : is_space CR = true.
Proof. reflexivity. Qed.

Lemma LF_space : is_space LF = true.
Proof. reflexivity. Qed.

Lemma SP_space : is_space SP = true.
Proof. reflexivity. Qed.

Lemma nonspace_noCR (s : str) : Forall nonspace s -> noCR s.
Proof.
  unfold noCR, nonspace. intro H. eapply Forall_impl; [|exact H].
  intros c Hc E. subst. discriminate.
Qed.

Lemma nonspace_noLF (s : str) : Forall nonspace s -> noLF s.
Proof.
  unfold noLF, nonspace. intro H. eapply Forall_impl; [|exact H].
  intros c Hc E. subst. discriminate.
Qed.

Lemma lstrip_nlw (s : str) : nlw s -> lstrip s = s.
Proof. destruct s as [|c t]; simpl; [auto|]. unfold nonspace. now intros ->. Qed.

Lemma lstrip_is_nlw (s : str) : nlw (lstrip s).
Proof.
  induction s as [|c t IH]; simpl; [exact I|].
  destruct (is_space c) eqn:E; [exact IH|exact E].
Qed.

Lemma lstrip_split (s : str) : exists w, s = w ++ lstrip s /\ Forall (fun c => is_space c = true) w.
Proof.
  induction s as [|c t IH]; simpl; [exists []; auto|].
  destruct (is_space c) eqn:E.
  - destruct IH as [w [Hw Fw]]. exists (c :: w). simpl. rewrite <- Hw. auto.
  - exists []. auto.
Qed.

Lemma Forall_lstrip (P : ascii -> Prop) (s : str) : Forall P s -> Forall P (lstrip s).
Proof.
  induction s as [|c t IH]; simpl; [auto|]. intro H. inversion H; subst.
  destruct (is_space c); auto.
Qed.

Lemma Forall_strip (P : ascii -> Prop) (s : str) : Forall P s -> Forall P (strip s).
Proof.
  intro H. unfold strip, rstrip. apply Forall_rev, Forall_lstrip, Forall_rev, Forall_lstrip, H.
Qed.

Lemma nlw_app (a b : str) : a <> [] -> nlw a -> nlw (a ++ b).
Proof. destruct a; simpl; [congruence|auto]. Qed.

Lemma ntw_app (a b : str) : b <> [] -> ntw b -> ntw (a ++ b).
Proof.
  unfold ntw. intros Hb H. rewrite rev_app_distr. apply nlw_app; auto.
  intro E. apply Hb. apply (f_equal (@rev ascii)) in E. now rewrite rev_involutive in E.
Qed.

Lemma rstrip_ntw (s : str) : ntw s -> rstrip s = s.
Proof. unfold rstrip, ntw. intro H. now rewrite lstrip_nlw, rev_involutive. Qed.

Lemma rstrip_is_ntw (s : str) : ntw (rstrip s).
Proof. unfold ntw, rstrip. rewrite rev_involutive. apply lstrip_is_nlw. Qed.

Lemma rstrip_split (s : str) : exists w, s = rstrip s ++ w /\ Forall (fun c => is_space c = true) w.
Proof.
  destruct (lstrip_split (rev s)) as [w [Hw Fw]]. exists (rev w). split.
  - unfold rstrip. rewrite <- rev_app_distr, <- Hw. now rewrite rev_involutive.
  - now apply Forall_rev.
Qed.

Lemma rstrip_keeps_nlw (s : str) : nlw s -> nlw (rstrip s).
Proof.
  intro H. destruct (rstrip_split s) as [w [Hw _]].
  destruct (rstrip s) as [|c t]; simpl; auto.
  rewrite Hw in H. exact H.
Qed.

Lemma strip_nlw (s : str) : nlw (strip s).
Proof. unfold strip. apply rstrip_keeps_nlw, lstrip_is_nlw. Qed.

Lemma strip_ntw (s : str) : ntw (strip s).
Proof. unfold strip. apply rstrip_is_ntw. Qed.

Lemma strip_id (s : str) : nlw s -> ntw s -> strip s = s.
Proof. intros H1 H2. unfold strip. now rewrite lstrip_nlw, rstrip_ntw. Qed.

Lemma Forall_nonspace_nlw (s : str) : Forall nonspace s -> nlw s.
Proof. destruct s; simpl; auto. intro H. now inversion H. Qed.

Lemma Forall_nonspace_ntw (s : str) : Forall nonspace s -> ntw s.
Proof. intro H. apply Forall_nonspace_nlw, Forall_rev, H. Qed.

Lemma strip_token (s : str) : Forall nonspace s -> strip s = s.
Proof. intro H. apply strip_id; [apply Forall_nonspace_nlw|apply Forall_nonspace_ntw]; exact H. Qed.

(** The stripped text is a piece of the original one. *)
Lemma strip_infix (s : str) : exists a b, s = a ++ strip s ++ b.
Proof.
  destruct (lstrip_split s) as [w1 [H1 _]].
  destruct (rstrip_split (lstrip s)) as [w2 [H2 _]].
  exists w1, w2. unfold strip. rewrite <- H2. exact H1.
Qed.

Lemma CR_eqb_self : Ascii.eqb CR CR = true.
Proof. reflexivity. Qed.

Lemma eqb_neq (a b : ascii) : a <> b -> Ascii.eqb a b = false.
Proof. intro H. destruct (Ascii.eqb_spec a b); congruence. Qed.

Lemma replace_crlf_noCR (s : str) : noCR s -> replace_crlf s = s.
Proof.
  induction s as [|c t IH]; simpl; [auto|]. intro H. inversion H; subst.
  rewrite eqb_neq by assumption. f_equal. auto.
Qed.

Lemma replace_crlf_app (a b : str) :
  noCR a -> replace_crlf (a ++ CR :: LF :: b) = a ++ LF :: replace_crlf b.
Proof.
  induction a as [|c t IH]; intro H; simpl; [reflexivity|].
  inversion H; subst. rewrite eqb_neq by assumption. f_equal. auto.
Qed.

Lemma replace_cr_noCR (s : str) : noCR s -> replace_cr s = s.
Proof.
  unfold replace_cr. induction s as [|c t IH]; simpl; [auto|]. intro H. inversion H; subst.
  rewrite eqb_neq by assumption. f_equal. auto.
Qed.

Lemma replace_cr_noCR_out (s : str) : noCR (replace_cr s).
Proof.
  unfold noCR, replace_cr. apply Forall_map, Forall_forall. intros c _.
  destruct (Ascii.eqb_spec c CR); [discriminate|assumption].
Qed.

Lemma join_cons2 (sep x y : str) (r : list str) :
  join sep (x :: y :: r) = x ++ sep ++ join sep (y :: r).
Proof. reflexivity. Qed.

Lemma replace_crlf_join (xs : list str) :
  Forall noCR xs -> replace_crlf (join CRLF xs) = join [LF] xs.
Proof.
  induction xs as [|x [|y r] IH]; intro H; [reflexivity| |].
  - inversion H; subst. simpl. now apply replace_crlf_noCR.
  - inversion H; subst. rewrite !join_cons2. unfold CRLF. simpl.
    rewrite replace_crlf_app by assumption. f_equal. simpl. f_equal. auto.
Qed.

Lemma noCR_app (a b : str) : noCR a -> noCR b -> noCR (a ++ b).
Proof. intros; apply Forall_app; auto. Qed.

Lemma noCR_join_LF (xs : list str) : Forall noCR xs -> noCR (join [LF] xs).
Proof.
  induction xs as [|x [|y r] IH]; intro H; [constructor| |].
  - now inversion H.
  - inversion H; subst. rewrite join_cons2. apply noCR_app; [assumption|].
    simpl. constructor; [discriminate|]. apply IH. assumption.
Qed.

Lemma split_on_noLF (s : str) : noLF s -> split_on LF s = [s].
Proof.
  induction s as [|c t IH]; intro H; [reflexivity|]. inversion H; subst. simpl.
  rewrite eqb_neq by assumption. now rewrite IH.
Qed.

Lemma split_on_app (a b : str) : noLF a -> split_on LF (a ++ LF :: b) = a :: split_on LF b.
Proof.
  induction a as [|c t IH]; intro H; simpl.
  - reflexivity.
  - inversion H; subst. rewrite eqb_neq by assumption. now rewrite IH.
Qed.

Lemma split_on_join_cons (x y : str) (r : list str) :
  noLF x -> split_on LF (join [LF] (x :: y :: r)) = x :: split_on LF (join [LF] (y :: r)).
Proof. intro H. rewrite join_cons2. now apply split_on_app. Qed.

Lemma split_on_Forall (P : ascii -> Prop) (sep : ascii) (s : str) :
  Forall P s -> Forall (Forall P) (split_on sep s).
Proof.
  induction s as [|c t IH]; intro H; simpl; [repeat constructor|].
  inversion H; subst. specialize (IH H3).
  destruct (Ascii.eqb c sep); [constructor; auto|].
  destruct (split_on sep t) as [|x r]; [repeat constructor; auto|].
  inversion IH; subst. constructor; [constructor|]; auto.
Qed.

Lemma split_on_noLF_out (s : str) : Forall noLF (split_on LF s).
Proof.
  induction s as [|c t IH]; simpl.
  - constructor; constructor.
  - destruct (Ascii.eqb c LF) eqn:E.
    + constructor; [constructor|exact IH].
    + apply Ascii.eqb_neq in E.
      destruct (split_on LF t) as [|x r].
      * constructor; [|constructor]. constructor; [exact E|constructor].
      * inversion IH; subst. constructor; [|assumption]. constructor; assumption.
Qed.

Lemma split_ws_aux_tok (t r cur : str) :
  Forall nonspace t -> split_ws_aux (t ++ r) cur = split_ws_aux r (rev t ++ cur).
Proof.
  revert cur. induction t as [|c t IH]; intros cur H; [reflexivity|].
  inversion H; subst. simpl. unfold nonspace in H2. rewrite H2, IH by assumption.
  now rewrite <- app_assoc.
Qed.

Lemma split_ws_aux_space (c : ascii) (r cur : str) :
  is_space c = true -> cur <> [] -> split_ws_aux (c :: r) cur = rev cur :: split_ws_aux r [].
Proof. intros Hc Hcur. simpl. rewrite Hc. destruct cur; [congruence|reflexivity]. Qed.

Lemma split_ws_aux_end (cur : str) : cur <> [] -> split_ws_aux [] cur = [rev cur].
Proof. intro H. destruct cur; [congruence|reflexivity]. Qed.

Lemma rev_nonempty (s : str) : s <> [] -> rev s <> [].
Proof.
  intros H E. apply H. apply (f_equal (@rev ascii)) in E. rewrite rev_involutive in E. exact E.
Qed.

Lemma split_ws_three (m p v : str) :
  token m -> token p -> token v -> split_ws (m ++ SP :: p ++ SP :: v) = [m; p; v].
Proof.
  intros [Hm Fm] [Hp Fp] [Hv Fv]. unfold split_ws.
  rewrite split_ws_aux_tok by assumption. rewrite app_nil_r.
  rewrite split_ws_aux_space by (reflexivity || now apply rev_nonempty).
  rewrite rev_involutive. f_equal.
  rewrite split_ws_aux_tok by assumption. rewrite app_nil_r.
  rewrite split_ws_aux_space by (reflexivity || now apply rev_nonempty).
  rewrite rev_involutive. f_equal.
  rewrite <- (app_nil_r v). rewrite split_ws_aux_tok by assumption. rewrite !app_nil_r.
  rewrite split_ws_aux_end by now apply rev_nonempty.
  now rewrite rev_involutive.
Qed.

Lemma split_ws_aux_tokens (s cur : str) :
  Forall nonspace cur -> Forall token (split_ws_aux s cur).
Proof.
  revert cur. induction s as [|c s IH]; intros cur Hc; simpl.
  - destruct cur; constructor; [|constructor]. split; [|now apply Forall_rev].
    intro E. apply (f_equal (@length ascii)) in E. rewrite length_rev in E. discriminate.
  - destruct (is_space c) eqn:E.
    + destruct cur as [|x xs]; [apply IH; constructor|].
      constructor; [|apply IH; constructor]. split; [|now apply Forall_rev].
      intro E'. apply (f_equal (@length ascii)) in E'. rewrite length_rev in E'. discriminate.
    + apply IH. constructor; assumption.
Qed.

Lemma split_ws_tokens (s : str) : Forall token (split_ws s).
Proof. apply split_ws_aux_tokens. constructor. Qed.

Lemma split_ws_aux_first (s cur t : str) (rest : list str) :
  split_ws_aux s cur = t :: rest -> cur <> [] \/ nlw s -> exists r, rev cur ++ s = t ++ r.
Proof.
  revert cur. induction s as [|c s IH]; intros cur E Hs.
  - destruct cur as [|x xs]; [discriminate|]. cbn [split_ws_aux] in E.
    injection E as <- _. exists []. reflexivity.
  - cbn [split_ws_aux] in E. destruct (is_space c) eqn:Ec.
    + destruct cur as [|x xs].
      * exfalso. destruct Hs as [Hs|Hs]; [now apply Hs|]. cbn in Hs. unfold nonspace in Hs.
        rewrite Hs in Ec. discriminate.
      * injection E as <- _. exists (c :: s). reflexivity.
    + assert (Hne : c :: cur <> []) by discriminate.
      destruct (IH (c :: cur) E (or_introl Hne)) as [r Hr].
      exists r. rewrite <- Hr. cbn [rev]. now rewrite <- app_assoc.
Qed.

Lemma startswith_app (p a b : str) : startswith p a = true -> startswith p (a ++ b) = true.
Proof.
  revert a. induction p as [|x p IH]; intros a H; [reflexivity|].
  destruct a as [|y a]; [discriminate|]. simpl in *.
  apply andb_true_iff in H as [H1 H2]. now rewrite H1, IH.
Qed.

Lemma startswith_cut (p m r : str) (c : ascii) :
  startswith p (m ++ c :: r) = true -> startswith p m = false -> In c p.
Proof.
  revert p. induction m as [|x m IH]; intros p H1 H2.
  - destruct p as [|y p]; [discriminate|]. simpl in H1.
    apply andb_true_iff in H1 as [H1 _]. apply Ascii.eqb_eq in H1. subst. now left.
  - destruct p as [|y p]; [discriminate|]. simpl in H1, H2.
    apply andb_true_iff in H1 as [Ha Hb]. rewrite Ha in H2. simpl in H2.
    right. exact (IH p Hb H2).
Qed.

Lemma span_token_spec (s : str) :
  s = fst (span_token s) ++ snd (span_token s) /\ Forall nonspace (fst (span_token s))
  /\ (snd (span_token s) = [] \/ exists c r, snd (span_token s) = c :: r /\ is_space c = true).
Proof.
  induction s as [|c s IH]; simpl; [auto|].
  destruct (is_space c) eqn:E; simpl.
  - split; [reflexivity|]. split; [constructor|]. right. eauto.
  - destruct (span_token s) as [t r]. simpl in *. destruct IH as [H1 [H2 H3]].
    split; [now rewrite H1 at 1|]. split; [constructor; assumption|exact H3].
Qed.

Lemma span_token_tok (t r : str) (c : ascii) :
  Forall nonspace t -> is_space c = true -> span_token (t ++ c :: r) = (t, c :: r).
Proof.
  intros H Hc. induction t as [|x t IH]; cbn [span_token app].
  - now rewrite Hc.
  - inversion H; subst. unfold nonspace in H2. rewrite H2. rewrite IH by assumption. reflexivity.
Qed.

Lemma span_token_startswith (p s : str) :
  Forall nonspace p -> startswith p s = true -> startswith p (fst (span_token s)) = true.
Proof.
  revert s. induction p as [|x p IH]; intros s Hp H; [reflexivity|].
  destruct s as [|c s]; [discriminate|]. simpl in H. apply andb_true_iff in H as [H1 H2].
  apply Ascii.eqb_eq in H1. subst. inversion Hp as [|? ? Hx Hrest]; subst.
  cbn [span_token]. unfold nonspace in Hx.
  rewrite Hx. destruct (span_token s) as [t r] eqn:E. cbn [fst startswith].
  rewrite Ascii.eqb_refl. specialize (IH s Hrest H2). rewrite E in IH. exact IH.
Qed.

Lemma split_max_unfold (n : nat) (s : str) (x : ascii) (xs : str) :
  lstrip s = x :: xs ->
  split_max n s = match n with
                  | O => [x :: xs]
                  | S n' => let (tok, rest) := span_token (x :: xs) in tok :: split_max n' rest
                  end.
Proof. intro E. destruct n; simpl; rewrite E; reflexivity. Qed.

Lemma split_max_nil (n : nat) (s : str) : lstrip s = [] -> split_max n s = [].
Proof. intro E. destruct n; simpl; now rewrite E. Qed.

(** A character [str(int)] prints for a digit. *)
Definition digit_ok (c : ascii) : Prop :=
  is_space c = false /\ Ascii.eqb c "-"%char = false /\ Ascii.eqb c "+"%char = false
  /\ Ascii.eqb c "_"%char = false.

Lemma uint_to_str_digits (u : Decimal.uint) : Forall digit_ok (uint_to_str u).
Proof.
  induction u; cbn [uint_to_str]; constructor; try assumption;
    unfold digit_ok; repeat split; reflexivity.
Qed.

Lemma parse_digits_step (c : ascii) (d : Decimal.uint -> Decimal.uint) (u : Decimal.uint) :
  digit_of c = Some d ->
  parse_digits (c :: uint_to_str u)
  = match u with
    | Decimal.Nil => Some (d Decimal.Nil)
    | _ => option_map d (parse_digits (uint_to_str u))
    end.
Proof. intro H. cbn [parse_digits]. rewrite H. destruct u; reflexivity. Qed.

Lemma parse_digits_uint (u : Decimal.uint) :
  u <> Decimal.Nil -> parse_digits (uint_to_str u) = Some u.
Proof.
  induction u as [|u IH|u IH|u IH|u IH|u IH|u IH|u IH|u IH|u IH|u IH]; intro H;
    [congruence|..]; cbn [uint_to_str];
    (erewrite parse_digits_step by reflexivity);
    (destruct u; [reflexivity|..]; rewrite IH by discriminate; reflexivity).
Qed.

Lemma z_to_str_ok (c : Z) :
  token (z_to_str c)
  /\ py_int (z_to_str c) = if (int_digits c <=? MAX_STR_DIGITS)%nat then Some c else None.
Proof.
  pose proof (DecimalZ.of_to c) as Hc. unfold z_to_str.
  pose proof (uint_to_str_digits) as Hd.
  assert (Hnil : forall u, Z.to_int c = Decimal.Pos u \/ Z.to_int c = Decimal.Neg u ->
                         u <> Decimal.Nil).
  { intros u Hu ->. destruct Hu as [Hu|Hu]; rewrite Hu in Hc; cbn in Hc; subst c;
      discriminate. }
  assert (Hne : forall u, u <> Decimal.Nil -> uint_to_str u <> []).
  { intros u Hu. destruct u; cbn; congruence. }
  assert (Hns : forall u, Forall nonspace (uint_to_str u)).
  { intro u. eapply Forall_impl; [|apply Hd]. intros x [Hx _]. exact Hx. }
  destruct (Z.to_int c) as [u|u] eqn:E.
  - assert (Hu : u <> Decimal.Nil) by (apply Hnil; auto).
    split; [split; [now apply Hne|apply Hns]|].
    unfold py_int. rewrite strip_token by apply Hns.
    pose proof (parse_digits_uint u Hu) as Hp.
    specialize (Hd u). destruct (uint_to_str u) as [|x t]; [discriminate|].
    inversion Hd as [|? ? [_ [Hm [Hpl _]]] _]; subst.
    rewrite Hm, Hpl, Hp. unfold int_of_digits, int_digits. rewrite E.
    destruct (_ <=? _)%nat; [now f_equal|reflexivity].
  - assert (Hu : u <> Decimal.Nil) by (apply Hnil; auto).
    split; [split; [discriminate|constructor; [reflexivity|apply Hns]]|].
    unfold py_int. rewrite strip_token by (constructor; [reflexivity|apply Hns]).
    cbn [Ascii.eqb]. rewrite parse_digits_uint by exact Hu. unfold int_of_digits, int_digits.
    rewrite E. destruct (_ <=? _)%nat; cbn; [now f_equal|reflexivity].
Qed.

(** What [int()] returns has at most [MAX_STR_DIGITS] digits. *)
Lemma int_of_digits_bound (sign : Decimal.uint -> Decimal.int) (o : option Decimal.uint) (c : Z) :
  (sign = Decimal.Pos \/ sign = Decimal.Neg) -> int_of_digits sign o = Some c ->
  (int_digits c <= MAX_STR_DIGITS)%nat.
Proof.
  intros Hs H. destruct o as [u|]; [|discriminate]. cbn [int_of_digits] in H.
  destruct (Decimal.nb_digits u <=? MAX_STR_DIGITS)%nat eqn:L; [|discriminate].
  injection H as <-. apply Nat.leb_le in L. unfold int_digits. rewrite DecimalZ.to_of.
  destruct Hs as [-> | ->]; cbn [Decimal.norm].
  - destruct u; [cbn; unfold MAX_STR_DIGITS; lia|..];
      (etransitivity; [apply DecimalFacts.nb_digits_unorm; discriminate|exact L]).
  - destruct (Decimal.nzhead u) eqn:Z; [cbn; unfold MAX_STR_DIGITS; lia|..];
      (rewrite <- Z; etransitivity; [apply DecimalFacts.nb_digits_nzhead|exact L]).
Qed.

Lemma py_int_digits (s : str) (c : Z) :
  py_int s = Some c -> (int_digits c <= MAX_STR_DIGITS)%nat.
Proof.
  unfold py_int. destruct (strip s) as [|x t]; [discriminate|].
  destruct (Ascii.eqb x "-"%char); [|destruct (Ascii.eqb x "+"%char)];
    apply int_of_digits_bound; auto.
Qed.

(** ** Facts about the header dictionary *)

Lemma dict_set_fresh (k v : str) (d : dict) :
  ~ In k (map fst d) -> dict_set k v d = d ++ [(k, v)].
Proof.
  induction d as [|[k' v'] r IH]; intro H; [reflexivity|]. simpl in *.
  destruct (list_eq_dec ascii_dec k k'); [subst; tauto|]. f_equal. auto.
Qed.

Lemma dict_set_keys (k v x : str) (d : dict) :
  In x (map fst (dict_set k v d)) -> x = k \/ In x (map fst d).
Proof.
  induction d as [|[k' v'] r IH]; simpl; [intros [H|[]]; auto|].
  destruct (list_eq_dec ascii_dec k k'); simpl; [subst; tauto|]. intros [H|H]; [tauto|].
  destruct (IH H); tauto.
Qed.

Lemma dict_set_nodup (k v : str) (d : dict) :
  NoDup (map fst d) -> NoDup (map fst (dict_set k v d)).
Proof.
  induction d as [|[k' v'] r IH]; simpl; intro H.
  - repeat constructor. auto.
  - inversion H; subst. destruct (list_eq_dec ascii_dec k k'); simpl.
    + constructor; assumption.
    + constructor; [|auto]. intro Hin. apply dict_set_keys in Hin as [Hin|Hin]; [congruence|auto].
Qed.

Lemma dict_set_Forall (P : str * str -> Prop) (k v : str) (d : dict) :
  P (k, v) -> Forall P d -> Forall P (dict_set k v d).
Proof.
  induction d as [|[k' v'] r IH]; simpl; intros Hp H; [repeat constructor; auto|].
  inversion H; subst. destruct (list_eq_dec ascii_dec k k'); [subst|]; constructor; auto.
Qed.

Lemma dict_fold_fresh (hs d0 : dict) :
  NoDup (map fst hs) -> (forall k, In k (map fst hs) -> ~ In k (map fst d0)) ->
  fold_left (fun d kv => dict_set (fst kv) (snd kv) d) hs d0 = d0 ++ hs.
Proof.
  revert d0. induction hs as [|[k v] r IH]; intros d0 Hn Hf; simpl; [now rewrite app_nil_r|].
  inversion Hn; subst. rewrite dict_set_fresh by (apply Hf; now left).
  rewrite IH; [now rewrite <- app_assoc|assumption|].
  intros x Hx Hin. rewrite map_app in Hin. apply in_app_or in Hin as [Hin|Hin].
  - exact (Hf x (or_intror Hx) Hin).
  - simpl in Hin. destruct Hin as [->|[]]. contradiction.
Qed.

(** ** What [parse] produces *)

Definition HTTP_ : str := s_ "HTTP/".

Definition kv_ok (kv : str * str) : Prop :=
  nlw (fst kv) /\ ntw (fst kv) /\ Forall (fun c => c <> COLON) (fst kv)
  /\ noCR (fst kv) /\ noLF (fst kv)
  /\ nlw (snd kv) /\ ntw (snd kv) /\ noCR (snd kv) /\ noLF (snd kv).

Definition wf_first_line (h : HTTPHeader) : Prop :=
  if h.(is_request) then
    (h.(method) = None \/ exists m, h.(method) = Some m /\ token m /\ startswith HTTP_ m = false)
    /\ (h.(path) = None \/ exists p, h.(path) = Some p /\ token p)
    /\ token h.(version)
  else
    token h.(version) /\ startswith HTTP_ h.(version) = true
    /\ (h.(status_message) = None \/
        exists m, h.(status_message) = Some m /\ m <> [] /\ nlw m /\ ntw m /\ noCR m /\ noLF m).

Definition wf (h : HTTPHeader) : Prop :=
  wf_first_line h /\ Forall kv_ok h.(headers) /\ NoDup (map fst h.(headers))
  /\ (h.(body) = None \/ exists b, h.(body) = Some b /\ noCR b).

Lemma split_first_spec (sep : ascii) (s a b : str) :
  split_first sep s = Some (a, b) -> s = a ++ sep :: b /\ Forall (fun c => c <> sep) a.
Proof.
  revert a b. induction s as [|c s IH]; intros a b H; [discriminate|]. cbn [split_first] in H.
  destruct (Ascii.eqb_spec c sep) as [->|Hc].
  - injection H as <- <-. auto.
  - destruct (split_first sep s) as [[a' b']|] eqn:E; [|discriminate].
    injection H as <- <-. destruct (IH a' b' eq_refl) as [-> Hf]. auto.
Qed.

Lemma phl_fields (ls : list str) (h : HTTPHeader) :
  let h' := parse_header_lines ls h in
  h'.(method) = h.(method) /\ h'.(path) = h.(path) /\ h'.(version) = h.(version)
  /\ h'.(status_code) = h.(status_code) /\ h'.(status_message) = h.(status_message)
  /\ h'.(is_request) = h.(is_request).
Proof.
  revert h. induction ls as [|l rest IH]; intro h; cbn [parse_header_lines]; [tauto|].
  destruct (strip l) as [|x xs].
  - destruct rest; cbn; tauto.
  - destruct (split_first COLON (x :: xs)) as [[k v]|]; [|apply IH].
    destruct (IH (set_header (strip k) (strip v) h)) as (H1 & H2 & H3 & H4 & H5 & H6).
    rewrite H1, H2, H3, H4, H5, H6. repeat split.
Qed.

Lemma wf_first_line_fields (h h' : HTTPHeader) :
  h'.(method) = h.(method) -> h'.(path) = h.(path) -> h'.(version) = h.(version) ->
  h'.(status_message) = h.(status_message) -> h'.(is_request) = h.(is_request) ->
  wf_first_line h -> wf_first_line h'.
Proof. unfold wf_first_line. intros -> -> -> -> ->. tauto. Qed.

Lemma Forall_split_app (P : ascii -> Prop) (a b : str) :
  Forall P (a ++ b) -> Forall P a /\ Forall P b.
Proof. intro H. apply Forall_app in H. exact H. Qed.

Lemma phl_wf (ls : list str) (h : HTTPHeader) :
  Forall (fun l => noCR l /\ noLF l) ls ->
  Forall kv_ok h.(headers) -> NoDup (map fst h.(headers)) ->
  (h.(body) = None \/ exists b, h.(body) = Some b /\ noCR b) ->
  let h' := parse_header_lines ls h in
  Forall kv_ok h'.(headers) /\ NoDup (map fst h'.(headers))
  /\ (h'.(body) = None \/ exists b, h'.(body) = Some b /\ noCR b).
Proof.
  revert h. induction ls as [|l rest IH]; intros h Hls Hkv Hnd Hb; cbn [parse_header_lines];
    [tauto|].
  inversion Hls as [|? ? [HlCR HlLF] Hrest]; subst.
  assert (HsCR : noCR (strip l)) by (apply Forall_strip; exact HlCR).
  assert (HsLF : noLF (strip l)) by (apply Forall_strip; exact HlLF).
  destruct (strip l) as [|x xs] eqn:Es.
  - destruct rest as [|l2 rest2]; [tauto|]. unfold set_body; cbn [headers body].
    split; [exact Hkv|]. split; [exact Hnd|].
    right. eexists; split; [reflexivity|]. apply noCR_join_LF.
    eapply Forall_impl; [|exact Hrest]. intros a [Ha _]. exact Ha.
  - destruct (split_first COLON (x :: xs)) as [[k v]|] eqn:Ek; apply IH; try assumption.
    apply split_first_spec in Ek as [Eline Hk].
    rewrite Eline in HsCR, HsLF.
    apply Forall_split_app in HsCR as [HkCR HvCR].
    apply Forall_split_app in HsLF as [HkLF HvLF].
    inversion HvCR; inversion HvLF; subst.
    cbn. apply dict_set_Forall; [|exact Hkv].
    unfold kv_ok; cbn.
    repeat split; try apply strip_nlw; try apply strip_ntw; apply Forall_strip; assumption.
    cbn. apply dict_set_nodup. exact Hnd.
Qed.

Lemma ntw_suffix (a b : str) : ntw (a ++ b) -> b <> [] -> ntw b.
Proof.
  unfold ntw. rewrite rev_app_distr. intros H Hb.
  destruct (rev b) as [|c r] eqn:E; [now apply rev_nonempty in Hb|]. exact H.
Qed.

Lemma HTTP_nonspace : Forall nonspace HTTP_.
Proof. repeat constructor. Qed.

Lemma startswith_HTTP_nonempty (x : str) : startswith HTTP_ x = true -> x <> [].
Proof. intros H ->. discriminate. Qed.

Lemma first_token_not_http (fl m : str) (r : list str) :
  split_ws fl = m :: r -> nlw fl -> startswith HTTP_ fl = false -> startswith HTTP_ m = false.
Proof.
  intros E Hn Hf. destruct (split_ws_aux_first fl [] m r E (or_intror Hn)) as [t Ht].
  cbn in Ht. destruct (startswith HTTP_ m) eqn:Em; [|reflexivity].
  rewrite Ht, startswith_app in Hf by exact Em. discriminate.
Qed.

Lemma prl_headers (fl : str) (h : HTTPHeader) :
  (parse_request_line fl h).(headers) = h.(headers) /\ (parse_request_line fl h).(body) = h.(body).
Proof. unfold parse_request_line. destruct (split_ws fl) as [|? [|? [|? ?]]]; auto. Qed.

Lemma psl_headers (fl : str) (h : HTTPHeader) :
  (parse_status_line fl h).(headers) = h.(headers) /\ (parse_status_line fl h).(body) = h.(body).
Proof. unfold parse_status_line. destruct (split_max 2 fl) as [|? [|? [|? ?]]]; auto. Qed.

Lemma init_version_token : token init_header.(version).
Proof. split; [discriminate|repeat constructor]. Qed.

Lemma prl_wf (fl : str) :
  nlw fl -> startswith HTTP_ fl = false ->
  wf_first_line (put_is_request true (parse_request_line fl init_header)).
Proof.
  intros Hn Hf. pose proof (split_ws_tokens fl) as Ht.
  unfold wf_first_line, parse_request_line.
  destruct (split_ws fl) as [|m [|p [|v r]]] eqn:E; cbn.
  - split; [now left|]. split; [now left|]. exact init_version_token.
  - inversion Ht; subst. split; [right; exists m; split; [reflexivity|]|].
    + split; [assumption|]. exact (first_token_not_http fl m [] E Hn Hf).
    + split; [now left|]. exact init_version_token.
  - inversion Ht as [|? ? Hm Ht']; inversion Ht'; subst.
    split; [right; exists m; split; [reflexivity|]|].
    + split; [assumption|]. exact (first_token_not_http fl m _ E Hn Hf).
    + split; [right; eauto|]. exact init_version_token.
  - inversion Ht as [|? ? Hm Ht']; inversion Ht' as [|? ? Hp Ht'']; inversion Ht''; subst.
    split; [right; exists m; split; [reflexivity|]|].
    + split; [assumption|]. exact (first_token_not_http fl m _ E Hn Hf).
    + split; [right; eauto|]. assumption.
Qed.

Lemma psl_wf (fl : str) :
  nlw fl -> ntw fl -> noCR fl -> noLF fl -> startswith HTTP_ fl = true ->
  wf_first_line (put_is_request false (parse_status_line fl init_header)).
Proof.
  intros Hn Ht HCR HLF Hf.
  destruct fl as [|x xs]; [discriminate|].
  unfold wf_first_line, parse_status_line. cbn [is_request put_is_request].
  rewrite (split_max_unfold 2 (x :: xs) x xs) by (apply lstrip_nlw; exact Hn).
  pose proof (span_token_spec (x :: xs)) as [Hsp [Htok _]].
  pose proof (span_token_startswith HTTP_ (x :: xs) HTTP_nonspace Hf) as Hst.
  destruct (span_token (x :: xs)) as [tok rest] eqn:Et. cbn [fst snd] in *.
  assert (Htk : token tok) by (split; [now apply startswith_HTTP_nonempty|assumption]).
  destruct (lstrip_split rest) as [w [Hw _]].
  destruct (lstrip rest) as [|y ys] eqn:Er.
  - rewrite split_max_nil by exact Er. cbn. split; [exact Htk|]. split; [exact Hst|]. now left.
  - rewrite (split_max_unfold 1 rest y ys Er).
    pose proof (span_token_spec (y :: ys)) as [Hsp2 _].
    destruct (span_token (y :: ys)) as [t2 r2] eqn:Et2. cbn [fst snd] in Hsp2.
    destruct (lstrip_split r2) as [w2 [Hw2 _]].
    destruct (lstrip r2) as [|z zs] eqn:Er2.
    + rewrite split_max_nil by exact Er2. cbn. split; [exact Htk|]. split; [exact Hst|].
      now left.
    + rewrite (split_max_unfold 0 r2 z zs Er2). cbn.
      split; [exact Htk|]. split; [exact Hst|]. right. exists (z :: zs).
      assert (Hdec : x :: xs = (tok ++ w ++ t2 ++ w2) ++ z :: zs).
      { rewrite Hsp, Hw, Hsp2, Hw2. now rewrite !app_assoc. }
      rewrite Hdec in Ht, HCR, HLF.
      apply Forall_split_app in HCR as [_ HCR]. apply Forall_split_app in HLF as [_ HLF].
      split; [reflexivity|]. split; [discriminate|].
      split; [rewrite <- Er2; apply lstrip_is_nlw|].
      split; [exact (ntw_suffix _ _ Ht ltac:(discriminate))|]. auto.
Qed.

Theorem parse_wf (s : str) : wf (parse s).
Proof.
  assert (Hinit : wf init_header).
  { split; [|split; [constructor|split; [constructor|now left]]].
    cbn. split; [now left|]. split; [now left|]. exact init_version_token. }
  unfold parse, parse_into. destruct s as [|c s']; [exact Hinit|].
  pose proof (split_on_Forall _ LF _ (replace_cr_noCR_out (replace_crlf (c :: s')))) as HlCR.
  pose proof (split_on_noLF_out (replace_cr (replace_crlf (c :: s')))) as HlLF.
  destruct (split_on LF (replace_cr (replace_crlf (c :: s')))) as [|l0 rest] eqn:EL;
    [exact Hinit|].
  inversion HlCR as [|? ? H0CR HrCR]; inversion HlLF as [|? ? H0LF HrLF]; subst.
  assert (Hrest : Forall (fun l => noCR l /\ noLF l) rest).
  { apply Forall_forall. intros l Hl. rewrite Forall_forall in HrCR, HrLF. split; [apply HrCR|apply HrLF]; exact Hl. }
  assert (HfCR : noCR (strip l0)) by (apply Forall_strip; exact H0CR).
  assert (HfLF : noLF (strip l0)) by (apply Forall_strip; exact H0LF).
  set (h1 := if startswith (s_ "HTTP/") (strip l0)
             then put_is_request false (parse_status_line (strip l0) init_header)
             else put_is_request true (parse_request_line (strip l0) init_header)).
  assert (H1 : wf_first_line h1 /\ h1.(headers) = [] /\ h1.(body) = None).
  { unfold h1. fold HTTP_. destruct (startswith HTTP_ (strip l0)) eqn:Eh.
    - split; [apply psl_wf; auto using strip_nlw, strip_ntw|].
      apply (psl_headers (strip l0) init_header).
    - split; [apply prl_wf; auto using strip_nlw|].
      apply (prl_headers (strip l0) init_header). }
  destruct H1 as [Hw1 [Hh1 Hb1]].
  destruct (phl_wf rest h1 Hrest) as [Hkv [Hnd Hb]];
    [rewrite Hh1; constructor|rewrite Hh1; constructor|now left|].
  destruct (phl_fields rest h1) as (E1 & E2 & E3 & _ & E5 & E6).
  split; [|auto]. exact (wf_first_line_fields h1 _ E1 E2 E3 E5 E6 Hw1).
Qed.

(** ** Parsing serialized text *)

Lemma split_first_app (sep : ascii) (a b : str) :
  Forall (fun c => c <> sep) a -> split_first sep (a ++ sep :: b) = Some (a, b).
Proof.
  induction a as [|c a IH]; intro H; cbn [app split_first].
  - now rewrite Ascii.eqb_refl.
  - inversion H; subst. rewrite eqb_neq by assumption. now rewrite IH.
Qed.

Lemma rstrip_snoc_space (a : str) (c : ascii) :
  is_space c = true -> rstrip (a ++ [c]) = rstrip a.
Proof. intro H. unfold rstrip. rewrite rev_app_distr. cbn [rev app lstrip]. now rewrite H. Qed.

Lemma rstrip_snoc_nonspace (a : str) (c : ascii) :
  is_space c = false -> rstrip (a ++ [c]) = a ++ [c].
Proof. intro H. apply rstrip_ntw. unfold ntw. rewrite rev_app_distr. exact H. Qed.

Lemma header_line_strip (k v : str) :
  kv_ok (k, v) -> exists w, strip (header_line (k, v)) = k ++ COLON :: w /\ strip w = v.
Proof.
  intros (Hk1 & Hk2 & _ & _ & _ & Hv1 & Hv2 & _ & _). unfold header_line. cbn [fst snd s_
    list_ascii_of_string app].
  assert (Hn : nlw (k ++ COLON :: SP :: v)).
  { destruct k as [|c k]; [reflexivity|exact Hk1]. }
  destruct v as [|c v].
  - exists []. split; [|reflexivity]. unfold strip. rewrite lstrip_nlw by exact Hn.
    change (rstrip (k ++ [COLON] ++ [SP]) = k ++ [COLON]). rewrite app_assoc.
    rewrite rstrip_snoc_space by reflexivity. apply rstrip_snoc_nonspace. reflexivity.
  - exists (SP :: c :: v). split.
    + apply strip_id; [exact Hn|]. change (k ++ COLON :: SP :: c :: v)
        with (k ++ [COLON; SP] ++ c :: v). rewrite app_assoc.
      apply ntw_app; [discriminate|exact Hv2].
    + unfold strip. change (lstrip (SP :: c :: v)) with (lstrip (c :: v)).
      rewrite lstrip_nlw by exact Hv1. apply rstrip_ntw, Hv2.
Qed.

Lemma phl_header_lines (hs : dict) (tail : list str) (h : HTTPHeader) :
  Forall kv_ok hs ->
  (parse_header_lines (map header_line hs ++ [] :: tail) h).(headers)
  = fold_left (fun d kv => dict_set (fst kv) (snd kv) d) hs h.(headers).
Proof.
  revert h. induction hs as [|[k v] hs IH]; intros h Hhs.
  - cbn. destruct tail; reflexivity.
  - inversion Hhs as [|? ? Hkv Hhs']; subst.
    destruct (header_line_strip k v Hkv) as [w [Hs Hw]].
    destruct Hkv as (Hk1 & Hk2 & Hk3 & _).
    cbn [map app parse_header_lines]. rewrite Hs.
    destruct (k ++ COLON :: w) as [|x xs] eqn:Ekw; [destruct k; discriminate|].
    rewrite <- Ekw, split_first_app by exact Hk3.
    rewrite strip_id by assumption. rewrite Hw, IH by exact Hhs'. reflexivity.
Qed.

Lemma join_nonempty (sep x : str) (r : list str) : x <> [] -> join sep (x :: r) <> [].
Proof. intros H E. destruct r; cbn in E; [congruence|]. destruct x; [congruence|discriminate]. Qed.

Lemma split_join_prefix (xs : list str) (y : str) (ys : list str) :
  Forall noLF xs ->
  split_on LF (join [LF] (xs ++ y :: ys)) = xs ++ split_on LF (join [LF] (y :: ys)).
Proof.
  induction xs as [|x xs IH]; intro H; [reflexivity|]. inversion H; subst.
  cbn [app]. destruct (xs ++ y :: ys) as [|z zs] eqn:E; [destruct xs; discriminate|].
  rewrite split_on_join_cons by assumption. rewrite IH by assumption. reflexivity.
Qed.

Lemma split_join_blank (bl : list str) :
  exists tail, split_on LF (join [LF] ([] :: bl)) = [] :: tail.
Proof.
  destruct bl as [|b bl]; [exists []; reflexivity|].
  rewrite join_cons2. cbn [app]. eexists. cbn [split_on]. now rewrite Ascii.eqb_refl.
Qed.

Lemma header_line_ok (kv : str * str) : kv_ok kv -> noCR (header_line kv) /\ noLF (header_line kv).
Proof.
  destruct kv as [k v]. intros (_ & _ & _ & HkCR & HkLF & _ & _ & HvCR & HvLF).
  unfold header_line. cbn [fst snd s_ list_ascii_of_string app].
  split; apply Forall_app; (split; [assumption|]); repeat constructor; try assumption;
    discriminate.
Qed.

(** The first line and the header block of serialized text parse back. *)
Lemma parse_serialized (first : str) (hs : dict) (bl : list str) :
  first <> [] -> noCR first -> noLF first -> Forall kv_ok hs -> NoDup (map fst hs) ->
  Forall noCR bl ->
  let m' := parse (join CRLF ((first :: map header_line hs) ++ [[]] ++ bl)) in
  let h1 := if startswith HTTP_ (strip first)
            then put_is_request false (parse_status_line (strip first) init_header)
            else put_is_request true (parse_request_line (strip first) init_header) in
  m'.(headers) = hs /\ m'.(method) = h1.(method) /\ m'.(path) = h1.(path)
  /\ m'.(version) = h1.(version) /\ m'.(status_code) = h1.(status_code)
  /\ m'.(status_message) = h1.(status_message) /\ m'.(is_request) = h1.(is_request).
Proof.
  intros Hf HfCR HfLF Hkv Hnd Hbl m' h1.
  assert (Hlines : Forall (fun l => noCR l /\ noLF l) (map header_line hs)).
  { apply Forall_map. eapply Forall_impl; [|exact Hkv]. apply header_line_ok. }
  assert (HallCR : Forall noCR ((first :: map header_line hs) ++ [[]] ++ bl)).
  { apply Forall_app. split; [constructor; [exact HfCR|]|].
    - eapply Forall_impl; [|exact Hlines]. intros a [Ha _]. exact Ha.
    - constructor; [constructor|exact Hbl]. }
  assert (HallLF : Forall noLF (first :: map header_line hs)).
  { constructor; [exact HfLF|]. eapply Forall_impl; [|exact Hlines]. intros a [_ Ha]. exact Ha. }
  unfold m', parse, parse_into.
  pose proof (join_nonempty CRLF first (map header_line hs ++ [[]] ++ bl) Hf) as Hj.
  destruct (join CRLF ((first :: map header_line hs) ++ [[]] ++ bl)) as [|c0 s0] eqn:EJ;
    [contradiction|].
  rewrite <- EJ, replace_crlf_join by exact HallCR.
  rewrite replace_cr_noCR by (apply noCR_join_LF; exact HallCR).
  change ([[]] ++ bl) with ([] :: bl). rewrite split_join_prefix by exact HallLF.
  destruct (split_join_blank bl) as [tail Ht]. rewrite Ht. cbn [app].
  fold HTTP_. fold h1.
  destruct (phl_fields (map header_line hs ++ [] :: tail) h1) as (E1 & E2 & E3 & E4 & E5 & E6).
  rewrite E1, E2, E3, E4, E5, E6. split; [|tauto].
  rewrite phl_header_lines by exact Hkv.
  assert (Hh1 : h1.(headers) = []).
  { unfold h1. destruct (startswith HTTP_ (strip first)).
    - apply (psl_headers (strip first) init_header).
    - apply (prl_headers (strip first) init_header). }
  rewrite Hh1. rewrite dict_fold_fresh by (assumption || (intros; tauto)). reflexivity.
Qed.

Lemma SP_not_in_HTTP_ : ~ In SP HTTP_.
Proof. cbn. intuition discriminate. Qed.

Lemma token_noCR (t : str) : token t -> noCR t.
Proof. intros [_ H]. now apply nonspace_noCR. Qed.

Lemma token_noLF (t : str) : token t -> noLF t.
Proof. intros [_ H]. now apply nonspace_noLF. Qed.

Lemma token_nlw (t : str) : token t -> nlw t.
Proof. intros [_ H]. now apply Forall_nonspace_nlw. Qed.

Lemma token_ntw (t : str) : token t -> ntw t.
Proof. intros [_ H]. now apply Forall_nonspace_ntw. Qed.

Lemma body_lines_noCR (b : option str) :
  (b = None \/ exists x, b = Some x /\ noCR x) ->
  Forall noCR (match b with Some ((_ :: _) as x) => [x] | _ => [] end).
Proof.
  intros [->|[x [-> Hx]]]; [constructor|]. destruct x; [constructor|]. exact (Forall_cons _ Hx (Forall_nil _)).
Qed.

Lemma noCR_sp (a b : str) : noCR a -> noCR b -> noCR (a ++ SP :: b).
Proof. intros Ha Hb. apply Forall_app. split; [exact Ha|]. constructor; [discriminate|exact Hb]. Qed.

Lemma noLF_sp (a b : str) : noLF a -> noLF b -> noLF (a ++ SP :: b).
Proof. intros Ha Hb. apply Forall_app. split; [exact Ha|]. constructor; [discriminate|exact Hb]. Qed.

Lemma roundtrip_request (m : HTTPHeader) (mt p : str) :
  wf m -> m.(is_request) = true -> m.(method) = Some mt -> m.(path) = Some p ->
  let m' := parse (generate_header m) in
  m'.(is_request) = true /\ m'.(method) = Some mt /\ m'.(path) = Some p
  /\ m'.(version) = m.(version) /\ m'.(headers) = m.(headers).
Proof.
  intros [Hfl [Hkv [Hnd Hb]]] Hreq Hm Hp m'.
  unfold wf_first_line in Hfl. rewrite Hreq, Hm, Hp in Hfl.
  destruct Hfl as [[Hm'|[mt' [Em [Hmt Hmh]]]] [[Hp'|[p' [Ep Hpt]]] Hv]];
    try discriminate. injection Em as <-. injection Ep as <-.
  assert (Hfirst : str_or (Some mt) (s_ "GET") = mt /\ str_or (Some p) (s_ "/") = p).
  { destruct Hmt as [Hmt _], Hpt as [Hpt _].
    destruct mt; [congruence|]; destruct p; [congruence|]; split; reflexivity. }
  set (first := mt ++ SP :: p ++ SP :: m.(version)).
  assert (Hgen : generate_header m
                 = join CRLF ((first :: map header_line m.(headers)) ++ [[]]
                    ++ match m.(body) with Some ((_ :: _) as x) => [x] | _ => [] end)).
  { unfold generate_header. rewrite Hreq, Hm, Hp. destruct Hfirst as [-> ->]. reflexivity. }
  assert (HfCR : noCR first) by (apply noCR_sp; [|apply noCR_sp]; apply token_noCR; assumption).
  assert (HfLF : noLF first) by (apply noLF_sp; [|apply noLF_sp]; apply token_noLF; assumption).
  assert (Hne : first <> []) by (destruct Hmt as [Hmt _]; destruct mt; [congruence|discriminate]).
  pose proof (parse_serialized first m.(headers) _ Hne HfCR HfLF Hkv Hnd (body_lines_noCR _ Hb))
    as Hps. cbn zeta in Hps. rewrite <- Hgen in Hps. fold m' in Hps.
  assert (Hs : strip first = first).
  { apply strip_id.
    - apply nlw_app; [apply Hmt|apply token_nlw, Hmt].
    - replace first with ((mt ++ SP :: p ++ [SP]) ++ m.(version))
        by (unfold first; repeat (rewrite <- app_assoc || rewrite <- app_comm_cons); reflexivity).
      apply ntw_app; [apply Hv|apply token_ntw, Hv]. }
  rewrite Hs in Hps.
  assert (Hsw : startswith HTTP_ first = false).
  { destruct (startswith HTTP_ first) eqn:E; [|reflexivity].
    exfalso. apply SP_not_in_HTTP_. exact (startswith_cut _ _ _ _ E Hmh). }
  rewrite Hsw in Hps. unfold parse_request_line in Hps. unfold first in Hps.
  rewrite split_ws_three in Hps by assumption. cbn in Hps.
  destruct Hps as (H1 & H2 & H3 & H4 & _ & _ & H7). auto.
Qed.

Lemma lstrip_SP (r : str) : lstrip (SP :: r) = lstrip r.
Proof. reflexivity. Qed.

Lemma split_max_three (v z msg : str) :
  token v -> token z -> msg <> [] -> nlw msg ->
  split_max 2 (v ++ SP :: z ++ SP :: msg) = [v; z; msg].
Proof.
  intros [Hv Fv] [Hz Fz] Hm Nm.
  destruct v as [|x vs]; [congruence|].
  rewrite (split_max_unfold 2 _ x (vs ++ SP :: z ++ SP :: msg))
    by (apply lstrip_nlw; exact (Forall_nonspace_nlw _ Fv)).
  change (x :: vs ++ SP :: z ++ SP :: msg) with ((x :: vs) ++ SP :: z ++ SP :: msg).
  rewrite span_token_tok by (assumption || reflexivity). f_equal.
  destruct z as [|y zs]; [congruence|].
  rewrite (split_max_unfold 1 _ y (zs ++ SP :: msg))
    by (rewrite lstrip_SP; apply lstrip_nlw; exact (Forall_nonspace_nlw _ Fz)).
  change (y :: zs ++ SP :: msg) with ((y :: zs) ++ SP :: msg).
  rewrite span_token_tok by (assumption || reflexivity). f_equal.
  destruct msg as [|w ws]; [congruence|].
  rewrite (split_max_unfold 0 _ w ws) by (rewrite lstrip_SP; apply lstrip_nlw; exact Nm).
  reflexivity.
Qed.

(** A status code that [_parse] produces has at most [MAX_STR_DIGITS]
    digits, so [str()] prints it back. *)
Lemma parse_status_code_digits (s : str) (c : Z) :
  (parse s).(status_code) = Some c -> (int_digits c <= MAX_STR_DIGITS)%nat.
Proof.
  unfold parse, parse_into. destruct s as [|x s]; [discriminate|].
  destruct (split_on LF _) as [|l0 rest]; [discriminate|].
  match goal with |- status_code (parse_header_lines ?ls ?h) = _ -> _ =>
    destruct (phl_fields ls h) as (_ & _ & _ & E & _); rewrite E; clear E end.
  destruct (startswith _ _); intro H.
  - unfold parse_status_line in H.
    destruct (split_max 2 _) as [|v [|c' [|m r]]];
      cbn [put_is_request put_status_code set_version set_status_message status_code init_header] in H;
      try discriminate; exact (py_int_digits _ _ H).
  - unfold parse_request_line in H.
    destruct (split_ws _) as [|a [|b [|v r]]];
      cbn [put_is_request put_method set_path set_version status_code init_header] in H; discriminate.
Qed.

Lemma roundtrip_response (m : HTTPHeader) (c : Z) (msg : str) :
  wf m -> m.(is_request) = false -> m.(status_code) = Some c -> c <> 0%Z ->
  (int_digits c <= MAX_STR_DIGITS)%nat ->
  m.(status_message) = Some msg ->
  let m' := parse (generate_header m) in
  m'.(is_request) = false /\ m'.(status_code) = Some c /\ m'.(status_message) = Some msg
  /\ m'.(version) = m.(version) /\ m'.(headers) = m.(headers).
Proof.
  intros [Hfl [Hkv [Hnd Hb]]] Hreq Hc Hc0 Hlim Hmsg m'.
  unfold wf_first_line in Hfl. rewrite Hreq, Hmsg in Hfl.
  destruct Hfl as [Hv [Hvh [Hm'|[msg' [Em (Hne & Hnl & Hnt & HmCR & HmLF)]]]]];
    [discriminate|]. injection Em as <-.
  destruct (z_to_str_ok c) as [Hzt Hzi].
  rewrite (proj2 (Nat.leb_le _ _) Hlim) in Hzi.
  set (first := m.(version) ++ SP :: z_to_str c ++ SP :: msg).
  assert (Hgen : generate_header m
                 = join CRLF ((first :: map header_line m.(headers)) ++ [[]]
                    ++ match m.(body) with Some ((_ :: _) as x) => [x] | _ => [] end)).
  { unfold generate_header. rewrite Hreq, Hc, Hmsg. unfold code_or.
    rewrite (proj2 (Z.eqb_neq c 0) Hc0).
    destruct msg; [congruence|]. reflexivity. }
  assert (HfCR : noCR first)
    by (apply noCR_sp; [apply token_noCR, Hv|apply noCR_sp; [apply token_noCR, Hzt|exact HmCR]]).
  assert (HfLF : noLF first)
    by (apply noLF_sp; [apply token_noLF, Hv|apply noLF_sp; [apply token_noLF, Hzt|exact HmLF]]).
  assert (Hfne : first <> []) by (destruct Hv as [Hv _]; destruct (version m); [congruence|discriminate]).
  pose proof (parse_serialized first m.(headers) _ Hfne HfCR HfLF Hkv Hnd (body_lines_noCR _ Hb))
    as Hps. cbn zeta in Hps. rewrite <- Hgen in Hps. fold m' in Hps.
  assert (Hs : strip first = first).
  { apply strip_id.
    - apply nlw_app; [apply Hv|apply token_nlw, Hv].
    - replace first with ((m.(version) ++ SP :: z_to_str c ++ [SP]) ++ msg)
        by (unfold first; repeat (rewrite <- app_assoc || rewrite <- app_comm_cons); reflexivity).
      apply ntw_app; assumption. }
  rewrite Hs in Hps.
  assert (Hsw : startswith HTTP_ first = true) by (apply startswith_app; exact Hvh).
  rewrite Hsw in Hps. unfold parse_status_line in Hps. unfold first in Hps.
  rewrite split_max_three in Hps by assumption. cbn in Hps. rewrite Hzi in Hps.
  destruct Hps as (H1 & _ & _ & H4 & H5 & H6 & H7). auto.
Qed.

(** * Facts about [server.py] *)

(** ** Splitting on a colon *)

Lemma split_on_nosep (sep : ascii) (s : str) :
  Forall (fun c => c <> sep) s -> split_on sep s = [s].
Proof.
  induction s as [|c t IH]; intro H; [reflexivity|]. inversion H; subst. simpl.
  rewrite eqb_neq by assumption. now rewrite IH.
Qed.

Lemma split_on_app_sep (sep : ascii) (a b : str) :
  Forall (fun c => c <> sep) a -> split_on sep (a ++ sep :: b) = a :: split_on sep b.
Proof.
  induction a as [|c t IH]; intro H; simpl.
  - now rewrite Ascii.eqb_refl.
  - inversion H; subst. rewrite eqb_neq by assumption. now rewrite IH.
Qed.

Lemma split_on_length (sep : ascii) (s : str) :
  length (split_on sep s) = S (count_occ ascii_dec s sep).
Proof.
  induction s as [|c t IH]; [reflexivity|]. simpl.
  destruct (Ascii.eqb c sep) eqn:E.
  - apply Ascii.eqb_eq in E. subst. destruct (ascii_dec sep sep); [|congruence].
    simpl. now rewrite IH.
  - destruct (ascii_dec c sep) as [e|_]; [subst; now rewrite Ascii.eqb_refl in E|].
    destruct (split_on sep t) as [|x r]; simpl in *; congruence.
Qed.

Lemma has_colon_count (d : str) :
  (0 < count_occ ascii_dec d COLON)%nat -> has_colon d = true.
Proof.
  intro H. unfold has_colon. apply existsb_exists.
  apply count_occ_In in H. exists COLON. split; [exact H|apply Ascii.eqb_refl].
Qed.

Lemma has_colon_false (d : str) :
  Forall (fun c => c <> COLON) d -> has_colon d = false.
Proof.
  intro H. unfold has_colon. induction H as [|c t Hc _ IH]; [reflexivity|].
  cbn [existsb]. rewrite IH, orb_false_r. apply eqb_neq. congruence.
Qed.

(** ** The abort path of the two handlers *)

(** The [finally] block of both handlers. *)
Definition cleanup_both : M unit := cleanup_socket Dest ;; cleanup_socket Client.

Lemma cleanup_both_ok (w : world) : cleanup_both w = (fst (cleanup_both w), Ok tt).
Proof. reflexivity. Qed.

Lemma cleanup_both_effect (w : world) :
  let w' := fst (cleanup_both w) in
  (ep Client w').(is_open) = false /\ (ep Dest w').(is_open) = false
  /\ (ep Client w').(sent) = (ep Client w).(sent) /\ (ep Dest w').(sent) = (ep Dest w).(sent)
  /\ w'.(sockets) = remove_first Client (remove_first Dest w.(sockets)).
Proof. repeat split. Qed.

Lemma process_connection_abort (fuel : nat) (h : HTTPHeader) (w : world) (e : exn) :
  get_host_port h = Raise e -> process_connection_request fuel h w = cleanup_both w.
Proof.
  intro H. unfold process_connection_request, try_finally, try_except, bind at 1, lift.
  rewrite H. cbn [any_exn]. unfold ret. rewrite cleanup_both_ok. reflexivity.
Qed.

Lemma process_non_connection_abort (fuel : nat) (h : HTTPHeader) (buf : bytes) (w : world)
  (e : exn) :
  get_host_port h = Raise e -> process_non_connection_request fuel h buf w = cleanup_both w.
Proof.
  intro H. unfold process_non_connection_request, try_finally, try_except, bind at 1, lift.
  rewrite H. cbn [any_exn]. unfold ret. rewrite cleanup_both_ok. reflexivity.
Qed.

(** ** [get_host_port] *)

Definition host_value (h : HTTPHeader) : option str :=
  py_or (get_header (s_ "Host") h) (get_header (s_ "host") h).

Lemma get_host_port_unfold (h : HTTPHeader) :
  get_host_port h =
  match host_value h with
  | None => Raise TypeError
  | Some d =>
      if has_colon d then
        match split_on COLON d with
        | [host; port] =>
            match py_int port with Some p => Ok (host, p) | None => Raise ValueError end
        | _ => Raise ValueError
        end
      else
        match h.(path) with
        | None => Raise (AttributeError "lower")
        | Some p => Ok (d, if contains (s_ "https://") (lower p) then 443%Z else 80%Z)
        end
  end.
Proof. reflexivity. Qed.

Lemma get_host_port_no_host (h : HTTPHeader) :
  (get_header (s_ "Host") h = None \/ get_header (s_ "Host") h = Some []) ->
  get_header (s_ "host") h = None -> get_host_port h = Raise TypeError.
Proof.
  intros H1 H2. rewrite get_host_port_unfold. unfold host_value, py_or.
  destruct H1 as [-> | ->]; rewrite H2; reflexivity.
Qed.

Lemma get_host_port_colons (h : HTTPHeader) (d : str) :
  get_header (s_ "Host") h = Some d -> (2 <= count_occ ascii_dec d COLON)%nat ->
  get_host_port h = Raise ValueError.
Proof.
  intros H Hc. rewrite get_host_port_unfold. unfold host_value, py_or. rewrite H.
  assert (Hne : d <> []) by (intros ->; simpl in Hc; lia).
  replace (match d with [] => get_header (s_ "host") h | _ :: _ => Some d end) with (Some d)
    by (destruct d; [congruence|reflexivity]).
  rewrite has_colon_count by lia.
  pose proof (split_on_length COLON d) as L.
  destruct (split_on COLON d) as [|x [|y [|z r]]]; simpl in L; try lia; reflexivity.
Qed.

Lemma get_host_port_value_colons (h : HTTPHeader) (d : str) :
  host_value h = Some d -> (2 <= count_occ ascii_dec d COLON)%nat ->
  get_host_port h = Raise ValueError.
Proof.
  intros H Hc. rewrite get_host_port_unfold, H.
  rewrite has_colon_count by lia.
  pose proof (split_on_length COLON d) as L.
  destruct (split_on COLON d) as [|x [|y [|z r]]]; simpl in L; try lia; reflexivity.
Qed.

Lemma get_host_port_one_colon (h : HTTPHeader) (a b : str) :
  host_value h = Some (a ++ COLON :: b) ->
  Forall (fun c => c <> COLON) a -> Forall (fun c => c <> COLON) b ->
  get_host_port h = match py_int b with Some p => Ok (a, p) | None => Raise ValueError end.
Proof.
  intros H Ha Hb. rewrite get_host_port_unfold, H.
  rewrite has_colon_count.
  - rewrite split_on_app_sep, split_on_nosep by assumption. reflexivity.
  - rewrite count_occ_app. simpl. destruct (ascii_dec COLON COLON); [lia|congruence].
Qed.

Lemma get_host_port_no_colon (h : HTTPHeader) (d p : str) :
  host_value h = Some d -> has_colon d = false -> h.(path) = Some p ->
  get_host_port h = Ok (d, if contains (s_ "https://") (lower p) then 443%Z else 80%Z).
Proof. intros H Hc Hp. rewrite get_host_port_unfold, H, Hc, Hp. reflexivity. Qed.

(** ** The CONNECT relay *)

(** The bytes a list of chunks carries. *)
Fixpoint flat (l : list chunk) : bytes :=
  match l with
  | [] => []
  | Data d :: r => d ++ flat r
  | Reset :: r => flat r
  end.

(** From [w] to [w'], what [src]'s peer delivered and the program read is
    what was sent on [dst], byte for byte and in order. *)
Definition flow (src dst : sock) (w w' : world) : Prop :=
  exists moved, flat (ep src w).(inbox) = moved ++ flat (ep src w').(inbox)
                /\ (ep dst w').(sent) = (ep dst w).(sent) ++ moved.

Lemma flow_refl (src dst : sock) (w : world) : flow src dst w w.
Proof. exists []. now rewrite app_nil_r. Qed.

Lemma flow_trans (src dst : sock) (w1 w2 w3 : world) :
  flow src dst w1 w2 -> flow src dst w2 w3 -> flow src dst w1 w3.
Proof.
  intros [m1 [A1 B1]] [m2 [A2 B2]]. exists (m1 ++ m2). split.
  - rewrite A1, A2. apply app_assoc.
  - rewrite B2, B1. symmetry. apply app_assoc.
Qed.

Lemma recv_from_spec (n : nat) (l : list chunk) (fin : bool) :
  (0 < n)%nat ->
  match recv_from n l fin with
  | (l', Ok d) => flat l = d ++ flat l' /\ (d = [] -> l' = [] /\ fin = true)
  | (l', Raise _) => flat l = flat l'
  | (_, NoFuel) => False
  end.
Proof.
  intro Hn. induction l as [|[d|] r IH].
  - destruct fin; simpl; auto.
  - destruct d as [|c d']; [exact IH|]. cbn [recv_from flat].
    destruct (length (c :: d') <=? n) eqn:E.
    + apply Nat.leb_le in E. rewrite firstn_all2 by exact E. split; [reflexivity|discriminate].
    + split.
      * cbn [flat]. rewrite (app_assoc (firstn n (c :: d'))), firstn_skipn. reflexivity.
      * destruct n; [lia|discriminate].
  - reflexivity.
Qed.

Definition both_open (w : world) : Prop :=
  (ep Client w).(is_open) = true /\ (ep Dest w).(is_open) = true.

(** After a zero-length read of [s]: nothing left, and the peer shut. *)
Definition drained (s : sock) (w : world) : Prop :=
  (ep s w).(inbox) = [] /\ (ep s w).(eof) = true.

Lemma relay_step_spec (src dst : sock) (w : world) :
  (src = Client /\ dst = Dest \/ src = Dest /\ dst = Client) -> both_open w ->
  let (w', r) := relay_step src dst w in
  flow Client Dest w w' /\ flow Dest Client w w'
  /\ match r with
     | Ok false => both_open w'
     | Ok true => (ep Client w').(is_open) = false /\ (ep Dest w').(is_open) = false
                  /\ drained src w'
     | _ => True
     end.
Proof.
  intros Hsd [Hc Hd].
  destruct w as [socks lis [co ci ce cs] [dop di de ds] conn reach]; cbn in Hc, Hd; subst co dop.
  pose proof (recv_from_spec BUF_SIZE) as R.
  destruct Hsd as [[-> ->]|[-> ->]]; unfold relay_step, bind, recv; cbn -[recv_from BUF_SIZE];
    [specialize (R ci ce ltac:(unfold BUF_SIZE; lia)); destruct (recv_from BUF_SIZE ci ce) as [l' r]
    |specialize (R di de ltac:(unfold BUF_SIZE; lia)); destruct (recv_from BUF_SIZE di de) as [l' r]];
    (destruct r as [d|e|]; [|cbn|contradiction]);
    try (destruct R as [R1 R2]; destruct d as [|b d'];
         [destruct (R2 eq_refl) as [-> ->]|]; cbn);
    (split; [|split]);
    solve [ exists []; cbn in *; rewrite ?app_nil_r; auto
          | exists (b :: d'); cbn; auto
          | repeat split
          | exact I ].
Qed.

Lemma select2_open (w : world) :
  both_open w -> select2 w = (w, Ok (readable Client w, readable Dest w)).
Proof. intros [Hc Hd]. unfold select2. now rewrite Hc, Hd. Qed.

(** Whatever the outcome of the relay, both directions carried exactly the
    bytes read; a normal exit closed both sockets after a zero-length
    read. *)
Lemma relay_spec (fuel : nat) (w : world) :
  both_open w ->
  let (w', r) := relay fuel w in
  flow Client Dest w w' /\ flow Dest Client w w'
  /\ (r = Ok tt -> (ep Client w').(is_open) = false /\ (ep Dest w').(is_open) = false
                  /\ (drained Client w' \/ drained Dest w')).
Proof.
  revert w. induction fuel as [|f IH]; intros w Hw.
  - cbn. split; [apply flow_refl|split; [apply flow_refl|discriminate]].
  - cbn [relay]. unfold bind at 1. rewrite select2_open by exact Hw. cbn [fst snd].
    unfold bind at 1.
    destruct (readable Client w).
    + pose proof (relay_step_spec Client Dest w (or_introl (conj eq_refl eq_refl)) Hw) as S1.
      destruct (relay_step Client Dest w) as [w1 r1].
      destruct S1 as (F1 & G1 & T1).
      destruct r1 as [[|]|e|]; cbn.
      * split; [exact F1|split; [exact G1|intros _; tauto]].
      * unfold bind at 1. destruct (readable Dest w).
        -- pose proof (relay_step_spec Dest Client w1 (or_intror (conj eq_refl eq_refl)) T1) as S2.
           destruct (relay_step Dest Client w1) as [w2 r2].
           destruct S2 as (F2 & G2 & T2).
           destruct r2 as [[|]|e|]; cbn.
           ++ split; [eapply flow_trans; eauto|split; [eapply flow_trans; eauto|]].
              intros _. destruct T2 as (? & ? & ?). repeat split; auto.
           ++ pose proof (IH w2 T2) as S3. destruct (relay f w2) as [w3 r3].
              destruct S3 as (F3 & G3 & T3).
              split; [eapply flow_trans; [eauto|eapply flow_trans; eauto]|].
              split; [eapply flow_trans; [eauto|eapply flow_trans; eauto]|exact T3].
           ++ split; [eapply flow_trans; eauto|split; [eapply flow_trans; eauto|discriminate]].
           ++ split; [eapply flow_trans; eauto|split; [eapply flow_trans; eauto|discriminate]].
        -- cbn. pose proof (IH w1 T1) as S3. destruct (relay f w1) as [w3 r3].
           destruct S3 as (F3 & G3 & T3).
           split; [eapply flow_trans; eauto|split; [eapply flow_trans; eauto|exact T3]].
      * split; [exact F1|split; [exact G1|discriminate]].
      * split; [exact F1|split; [exact G1|discriminate]].
    + cbn. unfold bind at 1. destruct (readable Dest w).
      * pose proof (relay_step_spec Dest Client w (or_intror (conj eq_refl eq_refl)) Hw) as S2.
        destruct (relay_step Dest Client w) as [w2 r2].
        destruct S2 as (F2 & G2 & T2).
        destruct r2 as [[|]|e|]; cbn.
        -- split; [exact F2|split; [exact G2|intros _; tauto]].
        -- pose proof (IH w2 T2) as S3. destruct (relay f w2) as [w3 r3].
           destruct S3 as (F3 & G3 & T3).
           split; [eapply flow_trans; eauto|split; [eapply flow_trans; eauto|exact T3]].
        -- split; [exact F2|split; [exact G2|discriminate]].
        -- split; [exact F2|split; [exact G2|discriminate]].
      * cbn. pose proof (IH w Hw) as S3. destruct (relay f w) as [w3 r3]. exact S3.
Qed.

(** ** [process_connection_request] *)

(** [dest_socket.connect(a)] succeeds on an open destination socket. *)
Definition connectable (a : str * Z) (w : world) : bool :=
  ((0 <=? snd a) && (snd a <=? 65535))%Z && w.(reachable) (fst a) (snd a).

Lemma remove_first_In (s x : sock) (l : list sock) : In x (remove_first s l) -> In x l.
Proof.
  induction l as [|y r IH]; simpl; [auto|].
  destruct (sock_eqb s y); simpl; [auto|]. intros [->|H]; auto.
Qed.

Lemma sock_eqb_eq (a b : sock) : sock_eqb a b = true <-> a = b.
Proof. destruct a, b; simpl; split; congruence. Qed.

Lemma remove_first_NoDup (s : sock) (l : list sock) : NoDup l -> NoDup (remove_first s l).
Proof.
  induction l as [|y r IH]; intro H; simpl; [constructor|].
  inversion H; subst. destruct (sock_eqb s y); [assumption|].
  constructor; [|auto]. intro Hin. apply remove_first_In in Hin. contradiction.
Qed.

Lemma remove_first_notin (s : sock) (l : list sock) : NoDup l -> ~ In s (remove_first s l).
Proof.
  induction l as [|y r IH]; intro H; simpl; [auto|].
  inversion H; subst. destruct (sock_eqb s y) eqn:E.
  - apply sock_eqb_eq in E. subst. assumption.
  - intros [Hy|Hin]; [subst; rewrite (proj2 (sock_eqb_eq s s) eq_refl) in E; discriminate|].
    exact (IH H3 Hin).
Qed.

(** Neither socket of the connection is left in the global list. *)
Definition unregistered (w : world) : Prop :=
  ~ In Client w.(sockets) /\ ~ In Dest w.(sockets).

Lemma cleanup_both_unregistered (w : world) :
  NoDup w.(sockets) -> unregistered (fst (cleanup_both w)) /\ NoDup (fst (cleanup_both w)).(sockets).
Proof.
  intro H. cbn. split; [split|].
  - apply remove_first_notin, remove_first_NoDup, H.
  - intro Hin. apply remove_first_In in Hin. revert Hin. apply remove_first_notin, H.
  - apply remove_first_NoDup, remove_first_NoDup, H.
Qed.
Lemma relay_step_sockets (src dst : sock) (w : world) :
  (fst (relay_step src dst w)).(sockets) = w.(sockets).
Proof.
  unfold relay_step, bind, recv.
  destruct (is_open (ep src w)); [|reflexivity].
  destruct (recv_from BUF_SIZE (inbox (ep src w)) (eof (ep src w))) as [l r].
  destruct r as [[|b d]|e|]; destruct src, dst; unfold send, close, ret; cbn;
    try reflexivity; match goal with |- context [if ?b then _ else _] => destruct b end;
    reflexivity.
Qed.

Lemma relay_sockets (fuel : nat) (w : world) : (fst (relay fuel w)).(sockets) = w.(sockets).
Proof.
  revert w. induction fuel as [|f IH]; intro w; [reflexivity|].
  cbn [relay]. unfold bind at 1, select2.
  destruct (is_open (ep Client w) && is_open (ep Dest w)); [|reflexivity]. cbn [fst snd].
  unfold bind at 1. destruct (readable Client w).
  - pose proof (relay_step_sockets Client Dest w) as E1.
    destruct (relay_step Client Dest w) as [w1 [[|]|e|]]; cbn in E1 |- *; try exact E1.
    unfold bind at 1. destruct (readable Dest w).
    + pose proof (relay_step_sockets Dest Client w1) as E2.
      destruct (relay_step Dest Client w1) as [w2 [[|]|e|]]; cbn in E2 |- *;
        first [congruence | rewrite IH; congruence].
    + cbn. first [rewrite IH; exact E1 | congruence].
  - cbn. unfold bind at 1. destruct (readable Dest w).
    + pose proof (relay_step_sockets Dest Client w) as E2.
      destruct (relay_step Dest Client w) as [w2 [[|]|e|]]; cbn in E2 |- *;
        first [congruence | rewrite IH; congruence].
    + cbn. apply IH.
Qed.
Lemma remove_twice_unregistered (l : list sock) :
  NoDup l ->
  let l' := remove_first Client (remove_first Dest (remove_first Client (remove_first Dest l))) in
  ~ In Client l' /\ ~ In Dest l'.
Proof.
  intros H l'. pose proof (remove_first_NoDup Dest l H) as H1.
  pose proof (remove_first_NoDup Client _ H1) as H2.
  pose proof (remove_first_NoDup Dest _ H2) as H3. split.
  - apply remove_first_notin, H3.
  - intro Hin. apply remove_first_In in Hin. revert Hin. apply remove_first_notin, H2.
Qed.


(** ** The header rewrites *)

Lemma dict_get_set_same (k v : str) (d : dict) : dict_get k (dict_set k v d) = Some v.
Proof.
  induction d as [|[k' v'] r IH]; simpl.
  - destruct (list_eq_dec ascii_dec k k); congruence.
  - destruct (list_eq_dec ascii_dec k k') as [->|n]; simpl.
    + destruct (list_eq_dec ascii_dec k' k'); congruence.
    + destruct (list_eq_dec ascii_dec k k'); [contradiction|exact IH].
Qed.

Lemma dict_get_set_other (k k' v : str) (d : dict) :
  k <> k' -> dict_get k (dict_set k' v d) = dict_get k d.
Proof.
  intro Hk. induction d as [|[x y] r IH]; simpl.
  - destruct (list_eq_dec ascii_dec k k'); [contradiction|reflexivity].
  - destruct (list_eq_dec ascii_dec k' x) as [->|n]; simpl.
    + destruct (list_eq_dec ascii_dec k x); [contradiction|reflexivity].
    + destruct (list_eq_dec ascii_dec k x); [reflexivity|exact IH].
Qed.

Lemma get_header_set_same (k v : str) (h : HTTPHeader) :
  get_header k (set_header k v h) = Some v.
Proof. apply dict_get_set_same. Qed.

Lemma get_header_set_other (k k' v : str) (h : HTTPHeader) :
  k <> k' -> get_header k (set_header k' v h) = get_header k h.
Proof. apply dict_get_set_other. Qed.

Lemma get_header_set_version (k v : str) (h : HTTPHeader) :
  get_header k (set_version v h) = get_header k h.
Proof. reflexivity. Qed.

Lemma PC_not_Connection : s_ "Proxy-Connection" <> s_ "Connection".
Proof. discriminate. Qed.

(** ** [worker] *)

(** [read_header] reads the client socket and touches nothing else. *)
Lemma read_header_frame (fuel : nat) (delim buf : bytes) (w : world) :
  let w' := fst (read_header fuel delim buf w) in
  ep Dest w' = ep Dest w /\ (ep Client w').(sent) = (ep Client w).(sent)
  /\ (ep Client w').(is_open) = (ep Client w).(is_open) /\ w'.(sockets) = w.(sockets).
Proof.
  revert delim buf w. induction fuel as [|f IH]; intros delim buf w; [repeat split|].
  cbn [read_header]. destruct (negb (contains delim buf) && negb (contains LFLF buf));
    [|repeat split].
  unfold bind, recv.
  destruct w as [socks lis [co ci ce cs] dst conn reach]. cbn [ep client is_open inbox eof].
  destruct co; [|repeat split].
  destruct (recv_from BUF_SIZE ci ce) as [l [d|e|]]; [|repeat split..].
  cbn -[read_header].
  match goal with |- context [read_header f ?dl ?bf ?w1] =>
    destruct (IH dl bf w1) as (A & B & C & D) end.
  cbn -[read_header] in A, B, C, D. rewrite A, B, C, D. repeat split.
Qed.

Lemma lookup_to_output : lookup_attr "to_output" = raise (AttributeError "to_output").
Proof. reflexivity. Qed.

Lemma lookup_change_path : lookup_attr "change_path_to_relative"
                           = raise (AttributeError "change_path_to_relative").
Proof. reflexivity. Qed.

(** The run of [worker]: a normal return only through the handlers of the
    header read, which close the client socket; every other run stops in
    an exception or does not end, with the client socket as it was, no
    destination socket created and nothing sent. *)
Lemma worker_run (fuel : nat) (w : world) :
  let (w', r) := worker fuel w in
  (ep Client w').(sent) = (ep Client w).(sent) /\ ep Dest w' = ep Dest w
  /\ ((r = Ok tt /\ (ep Client w').(is_open) = false)
      \/ (r <> Ok tt /\ (ep Client w').(is_open) = (ep Client w).(is_open)
          /\ w'.(sockets) = w.(sockets))).
Proof.
  unfold worker. unfold bind at 1, try_except.
  destruct (read_header_frame fuel CRLFCRLF [] w) as (A & B & C & D).
  unfold bind at 1.
  destruct (read_header fuel CRLFCRLF [] w) as [w1 [[delim buf]|e|]]; cbn [fst] in A, B, C, D.
  - unfold ret at 1. cbn [fst snd].
    unfold bind at 1, lift. destruct (index1 (split1 delim buf)) as [pb|e|];
      [|repeat split; auto; right; repeat split; congruence
       |repeat split; auto; right; repeat split; congruence].
    unfold bind at 1. destruct (decode (hd [] (split1 delim buf))) as [text|e|];
      [|repeat split; auto; right; repeat split; congruence
       |repeat split; auto; right; repeat split; congruence].
    unfold bind at 1. rewrite lookup_to_output. unfold raise.
    repeat split; auto. right. repeat split; congruence.
  - destruct (is_timeout_or_reset e).
    + unfold bind at 1. cbn. repeat split; auto; try (left; split; reflexivity).
    + repeat split; auto. right. repeat split; congruence.
  - repeat split; auto. right. repeat split; congruence.
Qed.

(** [get_host_port] always ends, in a result or an exception. *)
Lemma get_host_port_total (h : HTTPHeader) : get_host_port h <> NoFuel.
Proof.
  rewrite get_host_port_unfold.
  destruct (host_value h) as [d|]; [|discriminate].
  destruct (has_colon d).
  - destruct (split_on COLON d) as [|x [|y [|z r]]]; try discriminate.
    destruct (py_int y); discriminate.
  - destruct (path h); discriminate.
Qed.

(** [process_non_connection_request] stops at the lookup of
    [change_path_to_relative]: it sends nothing and returns normally. *)
Lemma pncr_quiet (fuel : nat) (h : HTTPHeader) (buf : bytes) (w : world) :
  let (w', r) := process_non_connection_request fuel h buf w in
  (ep Client w').(sent) = (ep Client w).(sent) /\ (ep Dest w').(sent) = (ep Dest w).(sent)
  /\ r = Ok tt.
Proof.
  destruct (get_host_port h) as [hp|e|] eqn:H.
  2: { rewrite (process_non_connection_abort fuel h buf w e H). repeat split. }
  all: unfold process_non_connection_request, try_finally, try_except, bind at 1, lift; rewrite H.
  2: { exfalso. exact (get_host_port_total h H). }
  unfold bind at 1. rewrite lookup_change_path.
  destruct w as [socks lis [co ci ce cs] [dop di de ds] conn reach].
  unfold connect, settimeout, raise, bind. cbn.
  repeat match goal with |- context [if ?b then _ else _] => destruct b end; cbn; repeat split.
Qed.

(** A readable peer whose next chunk is no reset gives [recv] a result. *)
Lemma recv_from_ready (n : nat) (l : list chunk) (fin : bool) :
  pending l fin = true -> reset_next l = false -> exists l' d, recv_from n l fin = (l', Ok d).
Proof.
  induction l as [|c r IH]; intros Hp Hr; cbn in Hp.
  - subst fin. exists [], []. reflexivity.
  - destruct c as [[|x d]|].
    + apply IH; [exact Hp|exact Hr].
    + eexists; eexists; reflexivity.
    + discriminate.
Qed.

(** A peer whose next chunk is a reset makes [recv] raise. *)
Lemma recv_from_reset (n : nat) (l : list chunk) (fin : bool) :
  reset_next l = true -> pending l fin = true
  /\ exists l', recv_from n l fin = (l', Raise ConnectionResetError).
Proof.
  induction l as [|c r IH]; intro Hr; [discriminate|].
  destruct c as [[|x d]|]; cbn in Hr |- *.
  - exact (IH Hr).
  - discriminate.
  - split; [reflexivity|eexists; reflexivity].
Qed.

(** A zero-length read of the client ends the relay in its next round. *)
Lemma relay_drained_client (f : nat) (w : world) :
  both_open w -> drained Client w ->
  let (w', r) := relay (S f) w in
  r = Ok tt /\ (ep Client w').(is_open) = false /\ (ep Dest w').(is_open) = false.
Proof.
  intros [Hc Hd] [Hi He].
  destruct w as [socks lis [co ci ce cs] [dop di de ds] conn reach]; cbn in *; subst.
  cbn. repeat split.
Qed.

(** So does a zero-length read of the destination, when the client's
    read of the same round does not fail with a reset. *)
Lemma relay_drained_dest (f : nat) (w : world) :
  both_open w -> drained Dest w -> reset_next (ep Client w).(inbox) = false ->
  let (w', r) := relay (S f) w in
  r = Ok tt /\ (ep Client w').(is_open) = false /\ (ep Dest w').(is_open) = false.
Proof.
  intros [Hc Hd] [Hi He] Hr.
  destruct w as [socks lis [co ci ce cs] [dop di de ds] conn reach]; cbn in *; subst.
  cbn [relay]. unfold bind at 1, select2, readable. cbn [ep client dest is_open inbox eof andb fst snd].
  destruct (pending ci ce) eqn:Ep.
  - destruct (recv_from_ready BUF_SIZE ci ce Ep Hr) as (l' & d & Er).
    unfold bind at 1, relay_step, bind at 1, recv. cbn [ep client is_open inbox eof].
    rewrite Er. destruct d; cbn; repeat split.
  - cbn. repeat split.
Qed.

(** When the client's next chunk is a reset, the first round's client read
    raises [ConnectionResetError]; the destination is not read and nothing
    is sent. *)
Lemma relay_reset_client (f : nat) (w : world) :
  both_open w -> reset_next (ep Client w).(inbox) = true ->
  let (w', r) := relay (S f) w in
  r = Raise ConnectionResetError /\ (ep Client w').(sent) = (ep Client w).(sent)
  /\ ep Dest w' = ep Dest w.
Proof.
  intros [Hc Hd] Hr.
  destruct w as [socks lis [co ci ce cs] [dop di de ds] conn reach]; cbn in *; subst.
  destruct (recv_from_reset BUF_SIZE ci ce Hr) as [Ep [l' Er]].
  cbn [relay]. unfold bind at 1, select2, readable. cbn [ep client dest is_open inbox eof andb fst snd].
  rewrite Ep. unfold bind at 1, relay_step, bind at 1, recv. cbn [ep client is_open inbox eof].
  rewrite Er. cbn. repeat split.
Qed.

(** What a handler leaves when it gives up: a normal return, both sockets
    closed and out of the global list, nothing sent to either peer. *)
Definition aborted (w : world) (o : world * res unit) : Prop :=
  let (w', r) := o in
  r = Ok tt /\ (ep Client w').(is_open) = false /\ (ep Dest w').(is_open) = false
  /\ (ep Client w').(sent) = (ep Client w).(sent) /\ (ep Dest w').(sent) = (ep Dest w).(sent)
  /\ unregistered w'.

(** Both handlers give up the same way when [get_host_port] raises. *)
Lemma handlers_abort (fuel : nat) (h : HTTPHeader) (buf : bytes) (w : world) (e : exn) :
  get_host_port h = Raise e -> NoDup w.(sockets) ->
  aborted w (process_connection_request fuel h w)
  /\ aborted w (process_non_connection_request fuel h buf w).
Proof.
  intros H Hnd.
  rewrite (process_connection_abort fuel h w e H), (process_non_connection_abort fuel h buf w e H).
  rewrite cleanup_both_ok. unfold aborted.
  destruct (cleanup_both_effect w) as (A & B & C & D & _).
  destruct (cleanup_both_unregistered w Hnd) as [U _].
  cbv beta iota. split; (split; [reflexivity|]); repeat (split; [assumption|]); assumption.
Qed.

(** * The claims about the parser *)

(** C2 (as the code has it): for every [m = parse s], whatever line endings
    [s] used, [parse (generate_header m)] reproduces [m]'s method, path,
    version and header map when [m] is a request whose method and path are
    both set, and [m]'s status code, status message, version and header map
    when [m] is a response whose status code is set and non-zero and whose
    status message is set.  Outside these cases [generate_header] prints the
    defaults [GET], [/], [200] or [OK], which parse back as set fields. *)
Theorem parse_generate_roundtrip (s : str) :
  let m := parse s in
  let m' := parse (generate_header m) in
  (m.(is_request) = true -> m.(method) <> None -> m.(path) <> None ->
   m'.(is_request) = true /\ m'.(method) = m.(method) /\ m'.(path) = m.(path)
   /\ m'.(version) = m.(version) /\ m'.(headers) = m.(headers))
  /\ (m.(is_request) = false -> m.(status_code) <> None -> m.(status_code) <> Some 0%Z ->
      m.(status_message) <> None ->
      m'.(is_request) = false /\ m'.(status_code) = m.(status_code)
      /\ m'.(status_message) = m.(status_message)
      /\ m'.(version) = m.(version) /\ m'.(headers) = m.(headers)).
Proof.
  intros m m'. pose proof (parse_wf s) as Hwf. fold m in Hwf. split.
  - intros Hr Hm Hp.
    destruct (method m) as [mt|] eqn:Em; [|congruence].
    destruct (path m) as [p|] eqn:Ep; [|congruence].
    exact (roundtrip_request m mt p Hwf Hr Em Ep).
  - intros Hr Hc Hc0 Hmsg.
    destruct (status_code m) as [c|] eqn:Ec; [|congruence].
    destruct (status_message m) as [msg|] eqn:Emsg; [|congruence].
    assert (c <> 0%Z) by congruence.
    exact (roundtrip_response m c msg Hwf Hr Ec H (parse_status_code_digits s c Ec) Emsg).
Qed.

(** A request written with bare LF line endings meets the request half of
    the round trip. *)
Lemma parse_generate_roundtrip_witness :
  let s := s_ "GET /page HTTP/1.1" ++ [LF] ++ s_ "Host: example.com" ++ [LF; LF] in
  let m := parse s in
  let m' := parse (generate_header m) in
  m'.(is_request) = true /\ m'.(method) = m.(method) /\ m'.(path) = m.(path)
  /\ m'.(version) = m.(version) /\ m'.(headers) = m.(headers).
Proof.
  intros s m m'.
  apply (proj1 (parse_generate_roundtrip s)); vm_compute; congruence.
Defined.

(** C2 counterexample: the empty text parses to a message with no method;
    its serialisation [GET / HTTP/1.1] parses back with method [GET]. *)
Lemma parse_generate_roundtrip_empty_cex :
  let m := parse [] in
  m.(method) = None /\ (parse (generate_header m)).(method) = Some (s_ "GET").
Proof. vm_compute. split; reflexivity. Qed.

(** C9: parsing the empty text is total and yields the initial message: no
    method, no path, no status code, an empty header map. *)
Theorem parse_empty :
  parse [] = init_header
  /\ (parse []).(method) = None /\ (parse []).(path) = None
  /\ (parse []).(status_code) = None /\ (parse []).(headers) = [].
Proof. repeat split. Qed.

(** * The claims about [server.py] *)

(** C1: the forwarding does not happen.  Whatever the client sends, [worker]
    sends nothing to the destination and nothing back to the client:
    [header.to_output()] raises [AttributeError] before any destination
    socket exists.  [process_non_connection_request] on its own sends
    nothing either: [header.change_path_to_relative()] raises
    [AttributeError] before the request is written.  The counterexample
    runs the scenario's request [GET http://example.com/page HTTP/1.1]. *)
Theorem no_request_forwarded (fuel : nat) (w : world) :
  (let (w', r) := worker fuel w in
   (ep Dest w').(sent) = (ep Dest w).(sent) /\ (ep Client w').(sent) = (ep Client w).(sent))
  /\ forall (h : HTTPHeader) (buf : bytes),
       let (w', r) := process_non_connection_request fuel h buf w in
       (ep Dest w').(sent) = (ep Dest w).(sent) /\ (ep Client w').(sent) = (ep Client w).(sent).
Proof.
  split.
  - pose proof (worker_run fuel w) as R. destruct (worker fuel w) as [w' r].
    destruct R as (A & B & _). rewrite B. split; [reflexivity|exact A].
  - intros h buf. pose proof (pncr_quiet fuel h buf w) as R.
    destruct (process_non_connection_request fuel h buf w) as [w' r].
    destruct R as (A & B & _). split; assumption.
Qed.

(** C1, counterexample: the scenario's request ends in [AttributeError],
    and neither peer receives a byte. *)
Lemma no_request_forwarded_cex :
  let (w', r) := worker 10 (accepted_world sample_request sample_response) in
  r = Raise (AttributeError "to_output") /\ (ep Dest w').(sent) = [] /\ (ep Client w').(sent) = [].
Proof. vm_compute. repeat split. Qed.

(** C3: take a CONNECT request whose destination resolves to [(host, port)]
    and both sockets open, as [worker] leaves them.  When
    [dest_socket.connect] succeeds, the client receives exactly
    [HTTP/1.0 200 Connection Established\r\n\r\n], and after it only bytes
    that the destination sent.  When the connect fails, the handler returns
    normally; the client receives exactly [HTTP/1.0 502 Bad Gateway\r\n\r\n]
    and the destination receives nothing.  Every run that ends leaves both
    sockets closed and out of the global list. *)
Theorem connect_handshake (fuel : nat) (h : HTTPHeader) (w : world) (host : str) (port : Z) :
  get_host_port h = Ok (host, port) -> both_open w -> NoDup w.(sockets) ->
  let (w', r) := process_connection_request fuel h w in
  (r <> NoFuel -> (ep Client w').(is_open) = false /\ (ep Dest w').(is_open) = false
                  /\ unregistered w')
  /\ if connectable (host, port) w then
       exists relayed, (ep Client w').(sent) = (ep Client w).(sent) ++ OK_RESPONSE ++ relayed
                       /\ flat (ep Dest w).(inbox) = relayed ++ flat (ep Dest w').(inbox)
     else r = Ok tt /\ (ep Client w').(sent) = (ep Client w).(sent) ++ BAD_GATEWAY
          /\ (ep Dest w').(sent) = (ep Dest w).(sent).
Proof.
  intros H [Hc Hd] Hnd.
  destruct w as [socks lis [co ci ce cs] [dop di de ds] conn reach]; cbn in Hc, Hd, Hnd; subst co dop.
  unfold process_connection_request, try_finally, try_except, bind, lift. rewrite H.
  unfold connect, settimeout, ret, send, connectable. cbn -[relay OK_RESPONSE BAD_GATEWAY].
  destruct ((0 <=? port)%Z && (port <=? 65535)%Z) eqn:Er; cbn -[relay OK_RESPONSE BAD_GATEWAY].
  - destruct (reach host port) eqn:Eh; cbn -[relay OK_RESPONSE BAD_GATEWAY].
    + match goal with |- context [relay fuel ?w1] =>
        pose proof (relay_spec fuel w1 (conj eq_refl eq_refl)) as S;
        pose proof (relay_sockets fuel w1) as So;
        destruct (relay fuel w1) as [w2 r2] end.
      cbn in So. destruct S as (F & [moved [G1 G2]] & T). cbn in G1, G2.
      assert (U : unregistered (fst (cleanup_both w2))) by
        exact (proj1 (cleanup_both_unregistered w2 ltac:(rewrite So; exact Hnd))).
      destruct r2 as [[]|e|]; cbn -[OK_RESPONSE BAD_GATEWAY];
        (split; [intro Hn; first [exfalso; now apply Hn
                                 | split; [reflexivity|split; [reflexivity|exact U]]]|]);
        exists moved; (split; [rewrite G2; symmetry; apply app_assoc|exact G1]).
    + split; [intros _; split; [reflexivity|split; [reflexivity|]]|repeat split].
      unfold unregistered. cbn. apply remove_twice_unregistered, Hnd.
  - split; [intros _; split; [reflexivity|split; [reflexivity|]]|repeat split].
    unfold unregistered. cbn. apply remove_twice_unregistered, Hnd.
Qed.

(** C3, at a concrete input: [CONNECT example.com:443] with both sockets
    open and the destination registered. *)
Lemma connect_handshake_witness :
  get_host_port sample_connect = Ok (s_ "example.com", 443%Z) /\ both_open handler_world
  /\ NoDup handler_world.(sockets)
  /\ let (w', r) := process_connection_request 10 sample_connect handler_world in
     (r <> NoFuel -> (ep Client w').(is_open) = false /\ (ep Dest w').(is_open) = false
                     /\ unregistered w')
     /\ if connectable (s_ "example.com", 443%Z) handler_world then
          exists relayed, (ep Client w').(sent) = (ep Client handler_world).(sent) ++ OK_RESPONSE ++ relayed
                          /\ flat (ep Dest handler_world).(inbox) = relayed ++ flat (ep Dest w').(inbox)
        else r = Ok tt /\ (ep Client w').(sent) = (ep Client handler_world).(sent) ++ BAD_GATEWAY
             /\ (ep Dest w').(sent) = (ep Dest handler_world).(sent).
Proof.
  assert (H : get_host_port sample_connect = Ok (s_ "example.com", 443%Z)) by (vm_compute; reflexivity).
  assert (Ho : both_open handler_world) by (split; reflexivity).
  assert (Hn : NoDup handler_world.(sockets))
    by (cbn; constructor; [intros [E|[]]; discriminate|constructor; [intros []|constructor]]).
  split; [exact H|split; [exact Ho|split; [exact Hn|]]].
  exact (connect_handshake 10 sample_connect handler_world _ _ H Ho Hn).
Defined.

(** C4: [worker] closes the client socket only on the timeout and reset
    handlers of the header read.  Every other run that ends (an LF-only
    request, the [AttributeError] of [header.to_output()], ...) ends in an
    exception that [worker] does not catch, and the client socket is left as
    it was: open, with the global socket list unchanged. *)
Theorem worker_leaves_client_open (fuel : nat) (w : world) :
  let (w', r) := worker fuel w in
  (r = Ok tt -> (ep Client w').(is_open) = false)
  /\ (r <> Ok tt -> (ep Client w').(is_open) = (ep Client w).(is_open)
                    /\ w'.(sockets) = w.(sockets) /\ ep Dest w' = ep Dest w).
Proof.
  pose proof (worker_run fuel w) as R. destruct (worker fuel w) as [w' r].
  destruct R as (_ & B & [[E C] | (E & C & D)]).
  - split; [intros _; exact C|intro N; contradiction].
  - split; [intro N; contradiction|intros _; split; [exact C|split; [exact D|exact B]]].
Qed.

(** C4, counterexample: an LF-only request ends in [IndexError] and the
    scenario's request in [AttributeError]; the client socket stays open. *)
Lemma worker_leaves_client_open_cex :
  (let (w', r) := worker 10 (accepted_world sample_request_lf sample_response) in
   r = Raise IndexError /\ (ep Client w').(is_open) = true /\ w'.(sockets) = [Listener])
  /\ (let (w', r) := worker 10 (accepted_world sample_request sample_response) in
      r = Raise (AttributeError "to_output") /\ (ep Client w').(is_open) = true
      /\ w'.(sockets) = [Listener]).
Proof. vm_compute. repeat split. Qed.

(** C5: resolution of the value [d] of [Host], or of [host] when [Host] is
    missing or empty.  With one colon, [d = a:b] gives [(a, int(b))], or
    [ValueError] when [b] is no integer or has more than [MAX_STR_DIGITS]
    digits; two colons or more give [ValueError].  With no colon the port
    is 80, and 443 when the lower-cased request target contains [https://];
    with no request target, [None.lower()] raises [AttributeError]. *)
Theorem get_host_port_resolution (h : HTTPHeader) (d : str) :
  host_value h = Some d ->
  (forall a b : str, d = a ++ COLON :: b ->
     Forall (fun c => c <> COLON) a -> Forall (fun c => c <> COLON) b ->
     get_host_port h = match py_int b with Some p => Ok (a, p) | None => Raise ValueError end)
  /\ ((2 <= count_occ ascii_dec d COLON)%nat -> get_host_port h = Raise ValueError)
  /\ (forall p : str, has_colon d = false -> h.(path) = Some p ->
        get_host_port h
        = Ok (d, if contains (s_ "https://") (lower p) then 443%Z else 80%Z))
  /\ (has_colon d = false -> h.(path) = None -> get_host_port h = Raise (AttributeError "lower")).
Proof.
  intro H. split; [|split; [|split]].
  - intros a b -> Ha Hb. exact (get_host_port_one_colon h a b H Ha Hb).
  - exact (get_host_port_value_colons h d H).
  - intros p Hc Hp. exact (get_host_port_no_colon h d p H Hc Hp).
  - intros Hc Hp. rewrite get_host_port_unfold, H, Hc, Hp. reflexivity.
Qed.

(** C5, at concrete inputs: [Host: example.com:8443]; [host: [::1]:8080]
    with no [Host] header; [Host: a:] and a port of 4301 digits. *)
Lemma get_host_port_resolution_witness :
  (host_value sample_port = Some (s_ "example.com:8443")
   /\ get_host_port sample_port = Ok (s_ "example.com", 8443%Z))
  /\ (host_value sample_lower_ipv6 = Some (s_ "[::1]:8080")
      /\ get_host_port sample_lower_ipv6 = Raise ValueError)
  /\ (host_value sample_long_port = Some (s_ "a:" ++ long_port)
      /\ get_host_port sample_long_port = Raise ValueError).
Proof.
  split; [|split].
  - assert (H : host_value sample_port = Some (s_ "example.com:8443")) by (vm_compute; reflexivity).
    split; [exact H|].
    refine (eq_trans (proj1 (get_host_port_resolution sample_port _ H) (s_ "example.com") (s_ "8443")
                        eq_refl _ _) _);
      [repeat constructor; discriminate|repeat constructor; discriminate|vm_compute; reflexivity].
  - assert (H : host_value sample_lower_ipv6 = Some (s_ "[::1]:8080")) by (vm_compute; reflexivity).
    split; [exact H|].
    exact (proj1 (proj2 (get_host_port_resolution sample_lower_ipv6 _ H))
             ltac:(apply Nat.leb_le; vm_compute; reflexivity)).
  - assert (H : host_value sample_long_port = Some (s_ "a:" ++ long_port))
      by (vm_compute; reflexivity).
    split; [exact H|].
    assert (Fa : Forall (fun c => c <> COLON) (s_ "a")) by (repeat constructor; discriminate).
    assert (Fb : Forall (fun c => c <> COLON) long_port)
      by (apply Forall_forall; intros x Hx; apply repeat_spec in Hx; subst x; discriminate).
    pose proof (proj1 (get_host_port_resolution sample_long_port (s_ "a:" ++ long_port) H)
                  (s_ "a") long_port eq_refl Fa Fb) as E.
    rewrite E. vm_compute. reflexivity.
Defined.

(** C5, counterexample: the target [HTTPS://example.com/] has no literal
    [https://] in it, yet the port is promoted to 443. *)
Lemma get_host_port_resolution_cex :
  sample_https_upper.(path) = Some (s_ "HTTPS://example.com/")
  /\ contains (s_ "https://") (s_ "HTTPS://example.com/") = false
  /\ get_host_port sample_https_upper = Ok (s_ "example.com", 443%Z).
Proof. vm_compute. repeat split. Qed.

(** C6: with neither a non-empty [Host] header nor a [host] header,
    [get_host_port] raises [TypeError] ([':' in None]).  Each handler then
    returns normally, with both sockets closed and out of the global list
    and nothing sent to either peer. *)
Theorem missing_host_aborts (fuel : nat) (h : HTTPHeader) (buf : bytes) (w : world) :
  (get_header (s_ "Host") h = None \/ get_header (s_ "Host") h = Some []) ->
  get_header (s_ "host") h = None -> NoDup w.(sockets) ->
  get_host_port h = Raise TypeError
  /\ aborted w (process_connection_request fuel h w)
  /\ aborted w (process_non_connection_request fuel h buf w).
Proof.
  intros H1 H2 Hnd. pose proof (get_host_port_no_host h H1 H2) as E.
  split; [exact E|exact (handlers_abort fuel h buf w TypeError E Hnd)].
Qed.

(** C6, at a concrete input: a request with no [Host] header. *)
Lemma missing_host_aborts_witness :
  get_header (s_ "Host") sample_no_host = None /\ get_header (s_ "host") sample_no_host = None
  /\ get_host_port sample_no_host = Raise TypeError
  /\ aborted handler_world (process_connection_request 10 sample_no_host handler_world)
  /\ aborted handler_world (process_non_connection_request 10 sample_no_host [] handler_world).
Proof.
  assert (H1 : get_header (s_ "Host") sample_no_host = None) by (vm_compute; reflexivity).
  assert (H2 : get_header (s_ "host") sample_no_host = None) by (vm_compute; reflexivity).
  assert (Hn : NoDup handler_world.(sockets))
    by (cbn; constructor; [intros [E|[]]; discriminate|constructor; [intros []|constructor]]).
  split; [exact H1|split; [exact H2|]].
  exact (missing_host_aborts 10 sample_no_host [] handler_world (or_introl H1) H2 Hn).
Defined.

(** C6, counterexample: a request whose only host header is [host:] has no
    [Host] header, yet it resolves. *)
Lemma missing_host_aborts_cex :
  get_header (s_ "Host") sample_lower_host = None
  /\ get_host_port sample_lower_host = Ok (s_ "example.com", 80%Z).
Proof. vm_compute. split; reflexivity. Qed.

(** C7: the CONNECT relay moves bytes unmodified.  What each peer receives
    is, in order, a prefix of what the other peer sent; those bytes leave the
    sender's stream, so nothing is dropped or invented.  The loop returns
    normally only after a zero-length read, with both sockets closed.  A
    zero-length read of the client, or of the destination, closes both
    sockets and ends the loop; the destination is read only in a round
    whose client read does not fail, and when the client's next chunk is a
    reset, that read raises [ConnectionResetError] before the destination
    is read. *)
Theorem relay_verbatim (fuel : nat) (w : world) :
  both_open w ->
  (let (w', r) := relay fuel w in
   flow Client Dest w w' /\ flow Dest Client w w'
   /\ (r = Ok tt -> (ep Client w').(is_open) = false /\ (ep Dest w').(is_open) = false
                   /\ (drained Client w' \/ drained Dest w')))
  /\ (forall f, fuel = S f -> drained Client w ->
        let (w', r) := relay fuel w in
        r = Ok tt /\ (ep Client w').(is_open) = false /\ (ep Dest w').(is_open) = false)
  /\ (forall f, fuel = S f -> drained Dest w -> reset_next (ep Client w).(inbox) = false ->
        let (w', r) := relay fuel w in
        r = Ok tt /\ (ep Client w').(is_open) = false /\ (ep Dest w').(is_open) = false)
  /\ (forall f, fuel = S f -> reset_next (ep Client w).(inbox) = true ->
        let (w', r) := relay fuel w in
        r = Raise ConnectionResetError /\ (ep Client w').(sent) = (ep Client w).(sent)
        /\ ep Dest w' = ep Dest w).
Proof.
  intro Ho. split; [exact (relay_spec fuel w Ho)|split; [|split]].
  - intros f -> Hd. exact (relay_drained_client f w Ho Hd).
  - intros f -> Hd Hr. exact (relay_drained_dest f w Ho Hd Hr).
  - intros f -> Hr. exact (relay_reset_client f w Ho Hr).
Qed.

(** C7, at concrete inputs: the handler's sockets; a shut destination
    with a client that sent [x] and then reset; a shut destination with a
    client whose next chunk is a reset. *)
Lemma relay_verbatim_witness :
  (both_open handler_world
   /\ let (w', r) := relay 10 handler_world in
      flow Client Dest handler_world w' /\ flow Dest Client handler_world w'
      /\ (r = Ok tt -> (ep Client w').(is_open) = false /\ (ep Dest w').(is_open) = false
                      /\ (drained Client w' \/ drained Dest w')))
  /\ (let w := dest_shut_world [Data (s_ "x"); Reset] in
      both_open w /\ drained Dest w /\ reset_next (ep Client w).(inbox) = false
      /\ let (w', r) := relay 1 w in
         r = Ok tt /\ (ep Client w').(is_open) = false /\ (ep Dest w').(is_open) = false)
  /\ (let w := dest_shut_world [Reset; Data (s_ "x")] in
      both_open w /\ reset_next (ep Client w).(inbox) = true
      /\ let (w', r) := relay 1 w in
         r = Raise ConnectionResetError /\ (ep Client w').(sent) = (ep Client w).(sent)
         /\ ep Dest w' = ep Dest w).
Proof.
  split; [|split].
  - assert (Ho : both_open handler_world) by (split; reflexivity).
    split; [exact Ho|exact (proj1 (relay_verbatim 10 handler_world Ho))].
  - cbv zeta.
    assert (Ho : both_open (dest_shut_world [Data (s_ "x"); Reset])) by (split; reflexivity).
    assert (Hd : drained Dest (dest_shut_world [Data (s_ "x"); Reset])) by (split; reflexivity).
    split; [exact Ho|split; [exact Hd|split; [reflexivity|]]].
    exact (proj1 (proj2 (proj2 (relay_verbatim 1 _ Ho))) 0 eq_refl Hd eq_refl).
  - cbv zeta.
    assert (Ho : both_open (dest_shut_world [Reset; Data (s_ "x")])) by (split; reflexivity).
    split; [exact Ho|split; [reflexivity|]].
    exact (proj2 (proj2 (proj2 (relay_verbatim 1 _ Ho))) 0 eq_refl eq_refl).
Defined.

(** C8: no message is forwarded, so no forwarded message carries a
    [Proxy-Connection] header.  [worker] does rewrite the parsed request as
    the claim says: [Proxy-Connection] becomes [close] when its value is
    non-empty and is left as it was otherwise, never added.  But the
    rewritten header is never sent: [header.to_output()] raises
    [AttributeError] first, so [worker] sends nothing to either peer; and
    [process_non_connection_request] stops at
    [header.change_path_to_relative()], before its own rewrites at lines
    254-256 and 302-304, having sent nothing. *)
Theorem proxy_connection_never_sent (fuel : nat) (w : world) :
  (forall h : HTTPHeader,
     get_header (s_ "Proxy-Connection") (worker_rewrite h)
     = if truthy (get_header (s_ "Proxy-Connection") h) then Some (s_ "close")
       else get_header (s_ "Proxy-Connection") h)
  /\ (let (w', r) := worker fuel w in
      (ep Dest w').(sent) = (ep Dest w).(sent) /\ (ep Client w').(sent) = (ep Client w).(sent))
  /\ (forall (h : HTTPHeader) (buf : bytes),
        let (w', r) := process_non_connection_request fuel h buf w in
        (ep Dest w').(sent) = (ep Dest w).(sent) /\ (ep Client w').(sent) = (ep Client w).(sent)).
Proof.
  split; [|split].
  - intro h. unfold worker_rewrite.
    rewrite get_header_set_version, (get_header_set_other _ _ _ _ PC_not_Connection).
    destruct (truthy (get_header (s_ "Proxy-Connection") h)).
    + apply get_header_set_same.
    + rewrite get_header_set_version. apply get_header_set_other, PC_not_Connection.
  - pose proof (worker_run fuel w) as R. destruct (worker fuel w) as [w' r].
    destruct R as (A & B & _). rewrite B. split; [reflexivity|exact A].
  - intros h buf. pose proof (pncr_quiet fuel h buf w) as R.
    destruct (process_non_connection_request fuel h buf w) as [w' r].
    destruct R as (A & B & _). split; assumption.
Qed.

(** C8, counterexample: a request with [Proxy-Connection: keep-alive].
    [worker] rewrites the header to [close] in the parsed request, then
    raises [AttributeError]; neither peer receives a byte. *)
Lemma proxy_connection_never_sent_cex :
  get_header (s_ "Proxy-Connection") (parse sample_request_pc) = Some (s_ "keep-alive")
  /\ get_header (s_ "Proxy-Connection") (worker_rewrite (parse sample_request_pc))
     = Some (s_ "close")
  /\ let (w', r) := worker 10 (accepted_world sample_request_pc sample_response) in
     r = Raise (AttributeError "to_output") /\ (ep Dest w').(sent) = [] /\ (ep Client w').(sent) = [].
Proof. vm_compute. repeat split. Qed.

(** C10: a [Host] value with two colons or more, such as [[::1]:8080],
    makes [get_host_port] raise [ValueError] ([host, port = dest.split(':')]
    does not unpack).  Each handler then gives up: both sockets are closed
    and out of the global list, and nothing is sent. *)
Theorem many_colons_abort (fuel : nat) (h : HTTPHeader) (buf : bytes) (w : world) (d : str) :
  get_header (s_ "Host") h = Some d -> (2 <= count_occ ascii_dec d COLON)%nat ->
  NoDup w.(sockets) ->
  get_host_port h = Raise ValueError
  /\ aborted w (process_connection_request fuel h w)
  /\ aborted w (process_non_connection_request fuel h buf w).
Proof.
  intros H Hc Hnd. pose proof (get_host_port_colons h d H Hc) as E.
  split; [exact E|exact (handlers_abort fuel h buf w ValueError E Hnd)].
Qed.

(** C10, at a concrete input: [Host: [::1]:8080]. *)
Lemma many_colons_abort_witness :
  get_header (s_ "Host") sample_ipv6 = Some (s_ "[::1]:8080")
  /\ get_host_port sample_ipv6 = Raise ValueError
  /\ aborted handler_world (process_connection_request 10 sample_ipv6 handler_world)
  /\ aborted handler_world (process_non_connection_request 10 sample_ipv6 [] handler_world).
Proof.
  assert (H : get_header (s_ "Host") sample_ipv6 = Some (s_ "[::1]:8080")) by (vm_compute; reflexivity).
  assert (Hc : (2 <= count_occ ascii_dec (s_ "[::1]:8080") COLON)%nat) by (vm_compute; repeat constructor).
  assert (Hn : NoDup handler_world.(sockets))
    by (cbn; constructor; [intros [E|[]]; discriminate|constructor; [intros []|constructor]]).
  split; [exact H|].
  exact (many_colons_abort 10 sample_ipv6 [] handler_world _ H Hc Hn).
Defined.

(** * Further properties of [http_parser.py] *)

(** ** Editing the header map *)

Lemma dict_set_fst (k v : str) (d : dict) :
  map fst (dict_set k v d)
  = if in_dec (list_eq_dec ascii_dec) k (map fst d) then map fst d else map fst d ++ [k].
Proof.
  induction d as [|[k' v'] r IH]; [reflexivity|].
  cbn [dict_set map fst].
  destruct (list_eq_dec ascii_dec k k') as [<-|Hne].
  - destruct (in_dec (list_eq_dec ascii_dec) k (k :: map fst r)) as [_|N];
      [reflexivity|exfalso; apply N; left; reflexivity].
  - cbn [map fst]. rewrite IH.
    destruct (in_dec (list_eq_dec ascii_dec) k (map fst r)) as [I|N];
      destruct (in_dec (list_eq_dec ascii_dec) k (k' :: map fst r)) as [I'|N'];
      try reflexivity.
    + exfalso. apply N'. right. exact I.
    + exfalso. destruct I' as [E|I']; [congruence|contradiction].
Qed.

Lemma dict_get_absent (k : str) (d : dict) : ~ In k (map fst d) -> dict_get k d = None.
Proof.
  induction d as [|[k2 v2] r IH]; intro Hn; [reflexivity|].
  cbn. destruct (list_eq_dec ascii_dec k k2) as [<-|_].
  - exfalso. apply Hn. left. reflexivity.
  - apply IH. intro I. apply Hn. right. exact I.
Qed.

Lemma dict_get_del_same (k : str) (d : dict) :
  NoDup (map fst d) -> dict_get k (dict_del k d) = None.
Proof.
  induction d as [|[k' v'] r IH]; intro Hnd; [reflexivity|].
  inversion Hnd as [|? ? Hn Hnd']; subst. cbn [dict_del].
  destruct (list_eq_dec ascii_dec k k') as [<-|Hne].
  - apply dict_get_absent, Hn.
  - cbn. destruct (list_eq_dec ascii_dec k k'); [contradiction|]. apply IH, Hnd'.
Qed.

Lemma dict_get_del_other (k k' : str) (d : dict) :
  k' <> k -> dict_get k' (dict_del k d) = dict_get k' d.
Proof.
  intro Hne. induction d as [|[k2 v2] r IH]; [reflexivity|].
  cbn [dict_del]. destruct (list_eq_dec ascii_dec k k2) as [<-|_].
  - cbn. destruct (list_eq_dec ascii_dec k' k); [contradiction|reflexivity].
  - cbn. destruct (list_eq_dec ascii_dec k' k2); [reflexivity|exact IH].
Qed.

Lemma dict_del_absent (k : str) (d : dict) : ~ In k (map fst d) -> dict_del k d = d.
Proof.
  induction d as [|[k2 v2] r IH]; intro Hn; [reflexivity|].
  cbn [dict_del]. destruct (list_eq_dec ascii_dec k k2) as [<-|_].
  - exfalso. apply Hn. left. reflexivity.
  - f_equal. apply IH. intro I. apply Hn. right. exact I.
Qed.

Lemma dict_del_set (k v : str) (d : dict) : dict_del k (dict_set k v d) = dict_del k d.
Proof.
  induction d as [|[k2 v2] r IH].
  - cbn. destruct (list_eq_dec ascii_dec k k); [reflexivity|contradiction].
  - cbn [dict_set]. destruct (list_eq_dec ascii_dec k k2) as [<-|Hne].
    + cbn. destruct (list_eq_dec ascii_dec k k); [reflexivity|contradiction].
    + cbn. destruct (list_eq_dec ascii_dec k k2); [contradiction|]. rewrite IH. reflexivity.
Qed.

(** X1: after [set_header k v] (or its alias [add_header k v]), [get_header k]
    returns [v], and every other key keeps its value. *)
Theorem set_header_lookup (h : HTTPHeader) (k v : str) :
  get_header k (set_header k v h) = Some v
  /\ (forall k', k' <> k -> get_header k' (set_header k v h) = get_header k' h)
  /\ get_header k (add_header k v h) = Some v.
Proof.
  split; [apply get_header_set_same|split; [|apply get_header_set_same]].
  intros k' Hne. apply get_header_set_other, Hne.
Qed.

(** X2: [set_header] keeps the position of a key that is already present and
    appends a new key at the end of the header map. *)
Theorem set_header_order (h : HTTPHeader) (k v : str) :
  map fst (set_header k v h).(headers)
  = if in_dec (list_eq_dec ascii_dec) k (map fst h.(headers))
    then map fst h.(headers) else map fst h.(headers) ++ [k].
Proof. apply dict_set_fst. Qed.

(** X3: on a header map without duplicate keys, after [remove_header k] the
    lookup of [k] gives [None], the other keys keep their values, and removing
    an absent key changes nothing. *)
Theorem remove_header_lookup (h : HTTPHeader) (k : str) :
  NoDup (map fst h.(headers)) ->
  get_header k (remove_header k h) = None
  /\ (forall k', k' <> k -> get_header k' (remove_header k h) = get_header k' h)
  /\ (~ In k (map fst h.(headers)) -> remove_header k h = h).
Proof.
  intro Hnd. split; [apply dict_get_del_same, Hnd|split].
  - intros k' Hne. apply dict_get_del_other, Hne.
  - intro Hn. unfold remove_header. rewrite dict_del_absent by exact Hn.
    destruct h; reflexivity.
Qed.

Lemma remove_header_lookup_witness :
  let h := parse (s_ "GET / HTTP/1.1" ++ CRLF ++ s_ "Host: example.com" ++ CRLF
                  ++ s_ "User-Agent: Test" ++ CRLFCRLF) in
  NoDup (map fst h.(headers))
  /\ get_header (s_ "User-Agent") (remove_header (s_ "User-Agent") h) = None
  /\ (forall k', k' <> s_ "User-Agent" ->
        get_header k' (remove_header (s_ "User-Agent") h) = get_header k' h)
  /\ (~ In (s_ "User-Agent") (map fst h.(headers)) -> remove_header (s_ "User-Agent") h = h).
Proof.
  intro h.
  assert (Hnd : NoDup (map fst h.(headers))) by exact (proj1 (proj2 (proj2 (parse_wf _)))).
  split; [exact Hnd|exact (remove_header_lookup h (s_ "User-Agent") Hnd)].
Defined.

(** X4: [remove_header k] after [set_header k v] gives the same header as
    [remove_header k] alone. *)
Theorem remove_after_set (h : HTTPHeader) (k v : str) :
  remove_header k (set_header k v h) = remove_header k h.
Proof. unfold remove_header, set_header. cbn. rewrite dict_del_set. reflexivity. Qed.

(** ** Defaults of [generate_header] *)

(** X5: [generate_header] prints the defaults for falsy fields: status code
    [0] is printed as [200], an empty status message as [OK], an empty method
    as [GET] and an empty path as [/]. *)
Theorem generate_header_falsy_defaults (h : HTTPHeader) :
  generate_header (set_status_code 0 h) = generate_header (set_status_code 200 h)
  /\ generate_header (set_status_message [] h) = generate_header (set_status_message (s_ "OK") h)
  /\ generate_header (set_method [] h) = generate_header (set_method (s_ "GET") h)
  /\ generate_header (set_path [] h) = generate_header (set_path (s_ "/") h).
Proof. destruct h as [m p v c sm hs b []]; repeat split. Qed.

(** ** Line endings *)

Lemma replace_crlf_nil (s : str) : replace_crlf s = [] -> s = [].
Proof.
  destruct s as [|c t]; [reflexivity|]. cbn.
  destruct (Ascii.eqb c CR); [destruct t as [|d t']; [discriminate|]|discriminate].
  destruct (Ascii.eqb d LF); discriminate.
Qed.

Lemma replace_crlf_noLF (s : str) : noLF s -> replace_crlf s = s.
Proof.
  induction s as [|c t IH]; intro H; [reflexivity|].
  inversion H as [|? ? Hc Ht]; subst. cbn.
  destruct (Ascii.eqb c CR) eqn:E.
  - destruct t as [|d t']; [reflexivity|].
    inversion Ht as [|? ? Hd _]; subst.
    destruct (Ascii.eqb d LF) eqn:E2; [apply Ascii.eqb_eq in E2; contradiction|].
    rewrite IH by exact Ht. reflexivity.
  - rewrite IH by exact Ht. reflexivity.
Qed.

Lemma Forall_join (P : ascii -> Prop) (sep : str) (xs : list str) :
  Forall P sep -> Forall (Forall P) xs -> Forall P (join sep xs).
Proof.
  intros Hs Hx. induction Hx as [|x r Hx Hr IH]; [constructor|].
  destruct r as [|y r]; [exact Hx|].
  rewrite join_cons2. apply Forall_app. split; [exact Hx|apply Forall_app; auto].
Qed.

Lemma replace_cr_join_CR (xs : list str) :
  Forall noCR xs -> replace_cr (join [CR] xs) = join [LF] xs.
Proof.
  intro H. induction H as [|x r Hx Hr IH]; [reflexivity|].
  destruct r as [|y r]; [apply replace_cr_noCR, Hx|].
  rewrite !join_cons2. unfold replace_cr at 1. rewrite !map_app.
  fold (replace_cr x). fold (replace_cr (join [CR] (y :: r))).
  rewrite IH, (replace_cr_noCR x Hx). reflexivity.
Qed.

(** [_parse] sees its input only through the normalised text. *)
Lemma parse_normalized (s : str) : parse s = parse (replace_cr (replace_crlf s)).
Proof.
  unfold parse, parse_into.
  destruct s as [|c t]; [reflexivity|].
  destruct (replace_cr (replace_crlf (c :: t))) as [|c' t'] eqn:E.
  - exfalso. unfold replace_cr in E. apply map_eq_nil, replace_crlf_nil in E. discriminate.
  - rewrite <- E.
    rewrite (replace_crlf_noCR _ (replace_cr_noCR_out _)).
    rewrite (replace_cr_noCR _ (replace_cr_noCR_out _)). reflexivity.
Qed.

(** X6: for lines free of CR and LF, joining them with CRLF, with LF or with
    CR gives texts that parse to the same header. *)
Theorem parse_line_endings (ls : list str) :
  Forall (fun l => noCR l /\ noLF l) ls ->
  parse (join CRLF ls) = parse (join [LF] ls) /\ parse (join [CR] ls) = parse (join [LF] ls).
Proof.
  intro H.
  assert (Hcr : Forall noCR ls) by (eapply Forall_impl; [|exact H]; intros l [A _]; exact A).
  assert (Hlf : Forall noLF ls) by (eapply Forall_impl; [|exact H]; intros l [_ B]; exact B).
  split.
  - rewrite (parse_normalized (join CRLF ls)), replace_crlf_join by exact Hcr.
    rewrite (replace_cr_noCR _ (noCR_join_LF _ Hcr)). reflexivity.
  - rewrite (parse_normalized (join [CR] ls)).
    rewrite replace_crlf_noLF.
    + rewrite replace_cr_join_CR by exact Hcr. reflexivity.
    + apply Forall_join; [constructor; [discriminate|constructor]|exact Hlf].
Qed.

Lemma parse_line_endings_witness :
  let ls := [s_ "GET /test HTTP/1.1"; s_ "Host: example.com"; []; []] in
  Forall (fun l => noCR l /\ noLF l) ls
  /\ parse (join CRLF ls) = parse (join [LF] ls) /\ parse (join [CR] ls) = parse (join [LF] ls).
Proof.
  intro ls.
  assert (H : Forall (fun l => noCR l /\ noLF l) ls)
    by (repeat constructor; discriminate).
  split; [exact H|exact (parse_line_endings ls H)].
Defined.

(** ** The blank line of [generate_header] *)

Lemma startswith_CRLFCRLF_noCR (c : ascii) (u : str) : c <> CR -> startswith CRLFCRLF (c :: u) = false.
Proof.
  intro Hc. cbn [startswith CRLFCRLF].
  destruct (Ascii.eqb CR c) eqn:E; [apply Ascii.eqb_eq in E; congruence|reflexivity].
Qed.

Lemma contains_noCR_prefix (x u : str) :
  noCR x -> contains CRLFCRLF (x ++ u) = contains CRLFCRLF u.
Proof.
  intro H. induction H as [|c x Hc Hx IH]; [reflexivity|].
  cbn [app contains]. rewrite startswith_CRLFCRLF_noCR by exact Hc. exact IH.
Qed.

Lemma contains_lines (L : list str) :
  L <> [] -> Forall (fun l => l <> [] /\ noCR l) L ->
  contains CRLFCRLF (join CRLF L ++ CRLF) = false.
Proof.
  intros Hne H. induction H as [|x r [Hx Hxc] Hr IH]; [congruence|].
  destruct r as [|y r].
  - cbn [join]. rewrite contains_noCR_prefix by exact Hxc. reflexivity.
  - rewrite join_cons2, <- !app_assoc, contains_noCR_prefix by exact Hxc.
    assert (Hy : exists c u, join CRLF (y :: r) ++ CRLF = c :: u /\ c <> CR).
    { inversion Hr as [|? ? [Hy Hyc] _]; subst.
      destruct y as [|c y']; [congruence|]. inversion Hyc; subst.
      destruct r; eexists; eexists; (split; [reflexivity|assumption]). }
    destruct Hy as (c & u & Eu & Hc).
    cbn [CRLF app contains startswith CRLFCRLF Ascii.eqb andb orb].
    rewrite Eu. cbn [startswith].
    destruct (Ascii.eqb CR c) eqn:E; [apply Ascii.eqb_eq in E; congruence|].
    cbn [andb orb]. rewrite <- Eu. apply IH. discriminate.
Qed.

Lemma contains_mid (p a b : str) : contains p (a ++ p ++ b) = true.
Proof.
  assert (S : forall q u, startswith q (q ++ u) = true)
    by (induction q; [reflexivity|cbn; rewrite Ascii.eqb_refl; auto]).
  assert (U : forall s, contains p s
                        = startswith p s || match s with [] => false | _ :: s' => contains p s' end)
    by (destruct s; reflexivity).
  induction a as [|c a IH].
  - rewrite U. cbn [app]. rewrite S. reflexivity.
  - rewrite U. cbn [app]. rewrite IH. apply orb_true_r.
Qed.

Lemma join_snoc (sep y : str) (L : list str) :
  L <> [] -> join sep (L ++ [y]) = join sep L ++ sep ++ y.
Proof.
  intro Hne. induction L as [|x r IH]; [congruence|].
  destruct r as [|x2 r]; [reflexivity|].
  change ((x :: x2 :: r) ++ [y]) with (x :: x2 :: (r ++ [y])).
  rewrite !join_cons2. change (x2 :: r ++ [y]) with ((x2 :: r) ++ [y]).
  rewrite IH by discriminate. rewrite <- !app_assoc. reflexivity.
Qed.

Lemma str_or_noCR (x : option str) (d : str) :
  (forall m, x = Some m -> noCR m) -> noCR d -> noCR (str_or x d).
Proof. intros H Hd. destruct x as [[|c m]|]; cbn; auto. Qed.

Lemma generate_header_shape (h : HTTPHeader) :
  wf h ->
  exists L, L <> [] /\ Forall (fun l => l <> [] /\ noCR l) L
  /\ generate_header h
     = join CRLF (L ++ [[]] ++ match h.(body) with Some ((_ :: _) as b) => [b] | _ => [] end).
Proof.
  intros [Hfl [Hkv _]].
  exists ((if h.(is_request)
           then str_or h.(method) (s_ "GET") ++ [SP] ++ str_or h.(path) (s_ "/") ++ [SP] ++ h.(version)
           else h.(version) ++ [SP] ++ z_to_str (code_or h.(status_code) 200) ++ [SP]
                ++ str_or h.(status_message) (s_ "OK")) :: map header_line h.(headers)).
  split; [discriminate|split; [|reflexivity]].
  constructor.
  - unfold wf_first_line in Hfl. destruct (is_request h).
    + destruct Hfl as (Hm & Hp & Hv). split; [destruct (str_or _ _); discriminate|].
      apply noCR_sp; [|apply noCR_sp]; [apply str_or_noCR| apply str_or_noCR|apply token_noCR, Hv].
      * intros m E. destruct Hm as [Hm|(m' & Em & Ht & _)]; [congruence|].
        rewrite E in Em. injection Em as <-. apply token_noCR, Ht.
      * repeat constructor; discriminate.
      * intros m E. destruct Hp as [Hp|(p' & Ep & Ht)]; [congruence|].
        rewrite E in Ep. injection Ep as <-. apply token_noCR, Ht.
      * repeat constructor; discriminate.
    + destruct Hfl as (Hv & _ & Hmsg). split; [destruct (version h); discriminate|].
      apply noCR_sp; [apply token_noCR, Hv|apply noCR_sp].
      * apply token_noCR, (proj1 (z_to_str_ok _)).
      * apply str_or_noCR; [|repeat constructor; discriminate].
        intros m E. destruct Hmsg as [Hm|(m' & Em & _ & _ & _ & Hc & _)]; [congruence|].
        rewrite E in Em. injection Em as <-. exact Hc.
  - apply Forall_map. eapply Forall_impl; [|exact Hkv].
    intros [k v] Hok. split; [destruct k; discriminate|apply (header_line_ok (k, v) Hok)].
Qed.

(** X7: the text [generate_header] prints for a parsed header contains a
    blank line (CRLF CRLF) exactly when the header has a non-empty body. *)
Theorem generate_header_blank_line (s : str) :
  contains CRLFCRLF (generate_header (parse s)) = truthy (parse s).(body).
Proof.
  destruct (generate_header_shape (parse s) (parse_wf s)) as (L & Hne & HL & E).
  rewrite E. destruct (body (parse s)) as [[|c b]|]; cbn [truthy].
  - rewrite app_nil_r, join_snoc by exact Hne. rewrite app_nil_r. apply contains_lines; assumption.
  - change (L ++ [[]] ++ [c :: b]) with (L ++ [[]; c :: b]).
    replace (L ++ [[]; c :: b]) with ((L ++ [[]]) ++ [c :: b]) by (rewrite <- app_assoc; reflexivity).
    rewrite join_snoc by (destruct L; [congruence|discriminate]).
    rewrite join_snoc by exact Hne. rewrite app_nil_r, <- app_assoc.
    exact (contains_mid CRLFCRLF (join CRLF L) (c :: b)).
  - rewrite app_nil_r, join_snoc by exact Hne. rewrite app_nil_r. apply contains_lines; assumption.
Qed.

(** ** The first line *)

Lemma split_ws_aux_trailing (w x cur : str) :
  Forall (fun c => is_space c = true) w -> split_ws_aux (x ++ w) cur = split_ws_aux x cur.
Proof.
  intro Hw. revert cur. induction x as [|c x IH]; intro cur.
  - cbn [app]. revert cur. induction Hw as [|c w Hc Hw IHw]; intro cur; [reflexivity|].
    cbn [split_ws_aux]. rewrite Hc. destruct cur as [|d cur].
    + apply IHw.
    + rewrite (IHw []). reflexivity.
  - cbn. destruct (is_space c); [destruct cur; rewrite IH; reflexivity|apply IH].
Qed.

Lemma split_ws_aux_leading (w s : str) :
  Forall (fun c => is_space c = true) w -> split_ws_aux (w ++ s) [] = split_ws_aux s [].
Proof. intro Hw. induction Hw as [|c w Hc Hw IH]; [reflexivity|]. cbn. rewrite Hc. exact IH. Qed.

Lemma split_ws_strip (s : str) : split_ws (strip s) = split_ws s.
Proof.
  unfold split_ws, strip.
  destruct (lstrip_split s) as (w1 & E1 & H1).
  destruct (rstrip_split (lstrip s)) as (w2 & E2 & H2).
  rewrite E1 at 2. rewrite split_ws_aux_leading by exact H1.
  rewrite E2 at 2. rewrite split_ws_aux_trailing by exact H2. reflexivity.
Qed.

Lemma join_first_blank (l : str) : join CRLF ((l :: map header_line []) ++ [[]] ++ [[]]) = l ++ CRLFCRLF.
Proof. unfold CRLFCRLF, CRLF. cbn. reflexivity. Qed.

(** X8: a first line that does not start with [HTTP/] is split on
    whitespace: its words give the method, the path and the version
    ([HTTP/1.1] when there is no third word), and the message is a request. *)
Theorem parse_request_words (l : str) :
  l <> [] -> noCR l -> noLF l -> startswith HTTP_ (strip l) = false ->
  let m := parse (l ++ CRLFCRLF) in
  m.(is_request) = true /\ m.(method) = nth_error (split_ws l) 0
  /\ m.(path) = nth_error (split_ws l) 1
  /\ m.(version) = match nth_error (split_ws l) 2 with Some v => v | None => s_ "HTTP/1.1" end
  /\ m.(headers) = [].
Proof.
  intros Hne Hcr Hlf Hs m.
  pose proof (parse_serialized l [] [[]] Hne Hcr Hlf (Forall_nil _) (NoDup_nil _)
                (Forall_cons _ (Forall_nil _) (Forall_nil _))) as P.
  cbn zeta in P. rewrite join_first_blank in P. fold m in P. rewrite Hs in P.
  destruct P as (Hh & Hm & Hp & Hv & _ & _ & Hr).
  unfold parse_request_line in *. rewrite split_ws_strip in *.
  rewrite Hh, Hm, Hp, Hv, Hr.
  destruct (split_ws l) as [|a [|b [|c r]]]; cbn; repeat split.
Qed.

Lemma parse_request_words_witness :
  let l := s_ "GET /index.html" in
  let m := parse (l ++ CRLFCRLF) in
  m.(is_request) = true /\ m.(method) = Some (s_ "GET") /\ m.(path) = Some (s_ "/index.html")
  /\ m.(version) = s_ "HTTP/1.1" /\ m.(headers) = [].
Proof.
  intros l m.
  destruct (parse_request_words l ltac:(discriminate) ltac:(repeat constructor; discriminate)
              ltac:(repeat constructor; discriminate) ltac:(vm_compute; reflexivity))
    as (A & B & C & D & E).
  fold m in A, B, C, D, E.
  split; [exact A|split; [exact B|split; [exact C|split; [exact D|exact E]]]].
Defined.

(** X9: a status line [v c msg] gives the version [v], the status code
    [int(c)] ([None] when [c] is no integer or has more than
    [MAX_STR_DIGITS] digits) and the whole rest [msg] as the
    status message, spaces inside it kept; the message is a response. *)
Theorem parse_status_words (v c msg : str) :
  token v -> startswith HTTP_ v = true -> token c ->
  msg <> [] -> nlw msg -> ntw msg -> noCR msg -> noLF msg ->
  let m := parse ((v ++ SP :: c ++ SP :: msg) ++ CRLFCRLF) in
  m.(is_request) = false /\ m.(version) = v /\ m.(status_code) = py_int c
  /\ m.(status_message) = Some msg /\ m.(headers) = [].
Proof.
  intros Hv Hh Hc Hm1 Hm2 Hm3 Hm4 Hm5 m.
  assert (Sp : forall (P : ascii -> Prop) a b, Forall P a -> P SP -> Forall P b -> Forall P (a ++ SP :: b))
    by (intros P a b A S B; apply Forall_app; split; [exact A|constructor; assumption]).
  set (l := v ++ SP :: c ++ SP :: msg) in m.
  assert (Hne : l <> []) by (unfold l; destruct v; [destruct Hv; congruence|discriminate]).
  assert (Hcr : noCR l) by (apply Sp; [apply token_noCR, Hv|discriminate|apply Sp; [apply token_noCR, Hc|discriminate|exact Hm4]]).
  assert (Hlf : noLF l) by (apply Sp; [apply token_noLF, Hv|discriminate|apply Sp; [apply token_noLF, Hc|discriminate|exact Hm5]]).
  assert (Hst : strip l = l).
  { apply strip_id; unfold l.
    - apply nlw_app; [destruct Hv; assumption|apply token_nlw, Hv].
    - replace (v ++ SP :: c ++ SP :: msg) with ((v ++ SP :: c ++ [SP]) ++ msg)
        by (repeat (rewrite <- app_assoc || rewrite <- app_comm_cons); reflexivity).
      apply ntw_app; assumption. }
  pose proof (parse_serialized l [] [[]] Hne Hcr Hlf (Forall_nil _) (NoDup_nil _)
                (Forall_cons _ (Forall_nil _) (Forall_nil _))) as P.
  cbn zeta in P. rewrite join_first_blank in P. fold m in P. rewrite Hst in P.
  assert (Hsw : startswith HTTP_ l = true) by (unfold l; apply startswith_app; exact Hh).
  rewrite Hsw in P.
  destruct P as (Hh' & _ & _ & Hver & Hcode & Hmsg & Hr).
  unfold parse_status_line in *. unfold l in *. rewrite split_max_three in * by assumption.
  cbn in Hh', Hver, Hcode, Hmsg, Hr.
  rewrite Hh', Hver, Hcode, Hmsg, Hr. repeat split.
Qed.

Lemma parse_status_words_witness :
  let m := parse ((s_ "HTTP/1.1" ++ SP :: s_ "404" ++ SP :: s_ "Not Found") ++ CRLFCRLF) in
  m.(is_request) = false /\ m.(version) = s_ "HTTP/1.1" /\ m.(status_code) = Some 404%Z
  /\ m.(status_message) = Some (s_ "Not Found") /\ m.(headers) = [].
Proof.
  intro m.
  assert (Ht : forall t : string, t <> EmptyString -> Forall nonspace (s_ t) -> token (s_ t))
    by (intros t Ne F; split; [destruct t; [congruence|discriminate]|exact F]).
  destruct (parse_status_words (s_ "HTTP/1.1") (s_ "404") (s_ "Not Found")
              ltac:(apply Ht; [discriminate|repeat constructor]) ltac:(reflexivity)
              ltac:(apply Ht; [discriminate|repeat constructor]) ltac:(discriminate)
              ltac:(exact eq_refl) ltac:(exact eq_refl)
              ltac:(repeat constructor; discriminate) ltac:(repeat constructor; discriminate))
    as (A & B & C & D & E).
  fold m in A, B, C, D, E.
  split; [exact A|split; [exact B|split; [rewrite C; reflexivity|split; [exact D|exact E]]]].
Defined.

(** ** Header lines and the body *)

Lemma split_on_join (L : list str) :
  L <> [] -> Forall noLF L -> split_on LF (join [LF] L) = L.
Proof.
  induction L as [|x [|y r] IH]; intros Hne H; [congruence| |].
  - inversion H; subst. apply split_on_noLF. assumption.
  - inversion H; subst. rewrite split_on_join_cons by assumption.
    rewrite IH by (discriminate || assumption). reflexivity.
Qed.

(** The header after the first line [l0] of a text. *)
Definition first_line_header (l0 : str) : HTTPHeader :=
  if startswith (s_ "HTTP/") (strip l0)
  then put_is_request false (parse_status_line (strip l0) init_header)
  else put_is_request true (parse_request_line (strip l0) init_header).

Lemma parse_lines (l0 : str) (rest : list str) :
  Forall (fun l => noCR l /\ noLF l) (l0 :: rest) ->
  parse (join CRLF (l0 :: rest)) = parse_header_lines rest (first_line_header l0).
Proof.
  intro H.
  assert (Hcr : Forall noCR (l0 :: rest)) by (eapply Forall_impl; [|exact H]; intros l [A _]; exact A).
  assert (Hlf : Forall noLF (l0 :: rest)) by (eapply Forall_impl; [|exact H]; intros l [_ A]; exact A).
  unfold parse, parse_into.
  destruct (join CRLF (l0 :: rest)) as [|c s] eqn:E.
  - destruct rest as [|r rs].
    + cbn in E. subst l0. reflexivity.
    + destruct l0; discriminate.
  - rewrite <- E, replace_crlf_join by exact Hcr.
    rewrite replace_cr_noCR by (apply noCR_join_LF; exact Hcr).
    rewrite split_on_join by (discriminate || exact Hlf). reflexivity.
Qed.

Lemma phl_blank (ls bl : list str) (h : HTTPHeader) :
  Forall (fun l => strip l <> []) ls ->
  parse_header_lines (ls ++ [] :: bl) h
  = let h' := parse_header_lines ls h in
    match bl with [] => h' | _ => set_body (join [LF] bl) h' end.
Proof.
  revert h. induction ls as [|l ls IH]; intros h H; [reflexivity|].
  inversion H as [|? ? Hl Hls]; subst. cbn [app parse_header_lines].
  destruct (strip l) as [|x xs]; [congruence|]. apply IH, Hls.
Qed.

Lemma split_first_none (sep : ascii) (s : str) :
  Forall (fun c => c <> sep) s -> split_first sep s = None.
Proof.
  induction s as [|c t IH]; intro H; [reflexivity|]. inversion H; subst. cbn [split_first].
  destruct (Ascii.eqb_spec c sep); [contradiction|]. rewrite IH by assumption. reflexivity.
Qed.

Lemma phl_skip (ls1 : list str) (l : str) (rest : list str) (h : HTTPHeader) :
  Forall (fun x => strip x <> []) ls1 -> strip l <> [] -> Forall (fun c => c <> COLON) l ->
  parse_header_lines (ls1 ++ l :: rest) h = parse_header_lines (ls1 ++ rest) h.
Proof.
  intros H1 Hs Hc. revert h. induction H1 as [|x ls1 Hx _ IH]; intro h.
  - cbn [app parse_header_lines]. destruct (strip l) as [|y ys] eqn:E; [congruence|].
    rewrite <- E, split_first_none by (apply Forall_strip, Hc). reflexivity.
  - cbn [app parse_header_lines]. destruct (strip x) as [|y ys]; [congruence|].
    apply IH.
Qed.

(** X10: a non-blank header line without a colon is ignored by the parser:
    removing it does not change the parsed header. *)
Theorem parse_drops_colonless_line (l0 : str) (ls1 : list str) (l : str) (rest : list str) :
  Forall (fun x => noCR x /\ noLF x) (l0 :: ls1 ++ l :: rest) ->
  Forall (fun x => strip x <> []) ls1 -> strip l <> [] -> Forall (fun c => c <> COLON) l ->
  parse (join CRLF (l0 :: ls1 ++ l :: rest)) = parse (join CRLF (l0 :: ls1 ++ rest)).
Proof.
  intros H H1 Hs Hc.
  assert (H' : Forall (fun x => noCR x /\ noLF x) (l0 :: ls1 ++ rest)).
  { inversion H as [|? ? A B]; subst. constructor; [exact A|].
    apply Forall_app in B as [B1 B2]. inversion B2; subst. apply Forall_app; auto. }
  rewrite (parse_lines _ _ H), (parse_lines _ _ H'). apply phl_skip; assumption.
Qed.

Lemma parse_drops_colonless_line_witness :
  parse (join CRLF ([s_ "GET / HTTP/1.1"] ++ [s_ "Host: example.com"] ++ s_ "garbage line" :: [[]]))
  = parse (join CRLF ([s_ "GET / HTTP/1.1"] ++ [s_ "Host: example.com"] ++ [[]])).
Proof.
  apply (parse_drops_colonless_line (s_ "GET / HTTP/1.1") [s_ "Host: example.com"]
           (s_ "garbage line") [[]]).
  - repeat constructor; discriminate.
  - constructor; [discriminate|constructor].
  - discriminate.
  - repeat constructor; discriminate.
Defined.

(** X11: everything after the first blank line is the body, its lines
    joined with LF whatever line endings the input used, and none of it
    becomes a header; with nothing after the blank line there is no body. *)
Theorem parse_body_after_blank (l0 : str) (ls bl : list str) :
  Forall (fun x => noCR x /\ noLF x) (l0 :: ls ++ [] :: bl) ->
  Forall (fun x => strip x <> []) ls ->
  let m := parse (join CRLF (l0 :: ls ++ [] :: bl)) in
  m.(body) = match bl with [] => None | _ => Some (join [LF] bl) end
  /\ m.(headers) = (parse (join CRLF (l0 :: ls))).(headers).
Proof.
  intros H H1 m.
  assert (H' : Forall (fun x => noCR x /\ noLF x) (l0 :: ls)).
  { inversion H as [|? ? A B]; subst. constructor; [exact A|].
    apply Forall_app in B as [B1 _]. exact B1. }
  unfold m. rewrite (parse_lines _ _ H), (parse_lines _ _ H'), phl_blank by exact H1.
  assert (B0 : forall h : HTTPHeader, h.(body) = None ->
            (parse_header_lines ls h).(body) = None).
  { clear H H' m. induction H1 as [|x ls Hx _ IH]; intros h Hh; [exact Hh|]. cbn [parse_header_lines].
    destruct (strip x) as [|y ys]; [congruence|].
    destruct (split_first COLON (y :: ys)) as [[k v]|]; apply IH; exact Hh. }
  assert (Hb : (parse_header_lines ls (first_line_header l0)).(body) = None).
  { apply B0. unfold first_line_header, parse_status_line, parse_request_line.
    destruct (startswith (s_ "HTTP/") (strip l0));
      [destruct (split_max 2 (strip l0)) as [|? [|? [|? ?]]]
      |destruct (split_ws (strip l0)) as [|? [|? [|? ?]]]]; reflexivity. }
  destruct bl as [|b bl]; cbn zeta; [split; [exact Hb|reflexivity]|split; reflexivity].
Qed.

Lemma parse_body_after_blank_witness :
  let m := parse (join CRLF (s_ "POST /api HTTP/1.1" :: [s_ "Content-Type: text/plain"]
                             ++ [] :: [s_ "line one"; s_ "line two"])) in
  m.(body) = Some (s_ "line one" ++ LF :: s_ "line two")
  /\ m.(headers) = [(s_ "Content-Type", s_ "text/plain")].
Proof.
  destruct (parse_body_after_blank (s_ "POST /api HTTP/1.1") [s_ "Content-Type: text/plain"]
              [s_ "line one"; s_ "line two"]
              ltac:(repeat constructor; discriminate) ltac:(constructor; [discriminate|constructor]))
    as [A B].
  cbv zeta. rewrite A, B. split; reflexivity.
Defined.

(** * Further properties of [server.py] *)

(** ** The socket list *)

Lemma put_ep_ep (s : sock) (w : world) : put_ep s (ep s w) w = w.
Proof. destruct w, s; reflexivity. Qed.

Lemma remove_first_absent (s : sock) (l : list sock) : ~ In s l -> remove_first s l = l.
Proof.
  induction l as [|x r IH]; intro H; [reflexivity|]. cbn.
  destruct (sock_eqb s x) eqn:E.
  - exfalso. apply H. left. destruct s, x; try discriminate; reflexivity.
  - rewrite IH; [reflexivity|]. intro Hi. apply H. right. exact Hi.
Qed.

Lemma remove_first_app_new (s : sock) (l : list sock) : ~ In s l -> remove_first s (l ++ [s]) = l.
Proof.
  induction l as [|x r IH]; intro H; cbn.
  - destruct s; reflexivity.
  - destruct (sock_eqb s x) eqn:E.
    + exfalso. apply H. left. destruct s, x; try discriminate; reflexivity.
    + rewrite IH; [reflexivity|]. intro Hi. apply H. right. exact Hi.
Qed.

(** X12: [cleanup_socket s] closes [s], keeps its pending data and what was
    sent on it, leaves the other sockets alone and removes the first
    occurrence of [s] from the socket list, so no occurrence remains in a list
    without duplicates. *)
Theorem cleanup_socket_effect (s : sock) (w : world) :
  let (w', r) := cleanup_socket s w in
  r = Ok tt /\ (ep s w').(is_open) = false
  /\ (ep s w').(inbox) = (ep s w).(inbox) /\ (ep s w').(eof) = (ep s w).(eof)
  /\ (ep s w').(sent) = (ep s w).(sent)
  /\ (forall s', s' <> s -> ep s' w' = ep s' w)
  /\ w'.(sockets) = remove_first s w.(sockets)
  /\ (NoDup w.(sockets) -> ~ In s w'.(sockets) /\ NoDup w'.(sockets)).
Proof.
  destruct w as [socks lis cl de conn reach].
  destruct s; cbn; (split; [reflexivity|]); (split; [reflexivity|]); repeat (split; [reflexivity|]);
    (split; [intros [] N; solve [reflexivity|congruence]|]);
    (split; [reflexivity|]); intro Hnd; split;
    solve [apply remove_first_notin, Hnd | apply remove_first_NoDup, Hnd].
Qed.

(** X13: on a socket list without duplicates, a second [cleanup_socket s]
    right after the first one changes nothing. *)
Theorem cleanup_socket_twice (s : sock) (w : world) :
  NoDup w.(sockets) ->
  let (w1, _) := cleanup_socket s w in cleanup_socket s w1 = (w1, Ok tt).
Proof.
  intro Hnd. destruct w as [socks lis cl de conn reach]; cbn in Hnd.
  destruct s; cbn;
    rewrite (remove_first_absent _ (remove_first _ socks)) by (apply remove_first_notin, Hnd);
    reflexivity.
Qed.

Lemma cleanup_socket_twice_witness :
  NoDup (accepted_world sample_request sample_response).(sockets)
  /\ let (w1, _) := cleanup_socket Client (accepted_world sample_request sample_response) in
     cleanup_socket Client w1 = (w1, Ok tt).
Proof.
  assert (H : NoDup (accepted_world sample_request sample_response).(sockets))
    by (repeat constructor; intros []).
  split; [exact H|exact (cleanup_socket_twice Client _ H)].
Defined.

(** X14: creating and registering [dest_socket] as [worker] does, then
    [cleanup_socket(dest_socket)], leaves the socket list as it was, with the
    destination socket closed and the other sockets untouched. *)
Theorem register_then_cleanup (w : world) :
  ~ In Dest w.(sockets) ->
  let (w', r) := (open_dest ;; cleanup_socket Dest) w in
  r = Ok tt /\ w'.(sockets) = w.(sockets) /\ (ep Dest w').(is_open) = false
  /\ ep Client w' = ep Client w /\ ep Listener w' = ep Listener w.
Proof.
  intro H. destruct w as [socks lis cl de conn reach]. cbn in H |- *.
  rewrite remove_first_app_new by exact H. repeat split.
Qed.

Lemma register_then_cleanup_witness :
  ~ In Dest (accepted_world sample_request sample_response).(sockets)
  /\ let w := accepted_world sample_request sample_response in
     let (w', r) := (open_dest ;; cleanup_socket Dest) w in
     r = Ok tt /\ w'.(sockets) = w.(sockets) /\ (ep Dest w').(is_open) = false
     /\ ep Client w' = ep Client w /\ ep Listener w' = ep Listener w.
Proof.
  assert (H : ~ In Dest (accepted_world sample_request sample_response).(sockets))
    by (cbn; intuition discriminate).
  split; [exact H|exact (register_then_cleanup _ H)].
Defined.

Lemma ep_put_ep (s x : sock) (e : endpoint) (w : world) :
  ep s (put_ep x e w) = if sock_eqb s x then e else ep s w.
Proof. destruct s, x; reflexivity. Qed.

Lemma sockets_put_ep (x : sock) (e : endpoint) (w : world) :
  (put_ep x e w).(sockets) = w.(sockets).
Proof. destruct x; reflexivity. Qed.

Definition closed_ep (e : endpoint) : endpoint := mkEndpoint false e.(inbox) e.(eof) e.(sent).

Lemma close_each_spec (l : list sock) (w : world) :
  let (w', r) := close_each l w in
  r = Ok tt /\ w'.(sockets) = w.(sockets)
  /\ forall s, ep s w' = if existsb (sock_eqb s) l then closed_ep (ep s w) else ep s w.
Proof.
  revert w. induction l as [|x r IH]; intro w; [cbn; auto|].
  cbn [close_each]. unfold bind at 1, close.
  specialize (IH (put_ep x (closed_ep (ep x w)) w)).
  unfold closed_ep in IH at 1. destruct (close_each r _) as [w' res].
  destruct IH as (R & S & E). split; [exact R|split].
  - rewrite S. apply sockets_put_ep.
  - intro s. rewrite E, ep_put_ep. cbn [existsb].
    destruct (sock_eqb s x) eqn:Ex.
    + assert (s = x) by (destruct s, x; try discriminate; reflexivity). subst x.
      destruct (existsb (sock_eqb s) r); reflexivity.
    + reflexivity.
Qed.

Lemma existsb_sock_In (s : sock) (l : list sock) : existsb (sock_eqb s) l = true <-> In s l.
Proof.
  rewrite existsb_exists. split.
  - intros (x & Hx & E). assert (s = x) by (destruct s, x; try discriminate; reflexivity).
    subst. exact Hx.
  - intro H. exists s. split; [exact H|destruct s; reflexivity].
Qed.

(** X15: the [finally] block of [server] ([listener.close()], then
    [cleanup_all_sockets()]) closes the listener and every socket of the list
    and empties the list; a socket that was never registered, such as an
    accepted client socket, is left as it was. *)
Theorem server_shutdown_effect (w : world) :
  let (w', r) := server_shutdown w in
  r = Ok tt /\ w'.(sockets) = [] /\ (ep Listener w').(is_open) = false
  /\ (forall s, In s w.(sockets) -> (ep s w').(is_open) = false)
  /\ (forall s, s <> Listener -> ~ In s w.(sockets) -> ep s w' = ep s w)
  /\ (forall s, (ep s w').(inbox) = (ep s w).(inbox) /\ (ep s w').(eof) = (ep s w).(eof)
                /\ (ep s w').(sent) = (ep s w).(sent)).
Proof.
  unfold server_shutdown, bind at 1, close, cleanup_all_sockets, bind.
  set (w1 := put_ep Listener _ w).
  pose proof (close_each_spec w1.(sockets) w1) as C.
  destruct (close_each w1.(sockets) w1) as [w2 r2]. destruct C as (R & S & E). subst r2.
  assert (E1 : forall s, ep s w1 = if sock_eqb s Listener then closed_ep (ep s w) else ep s w)
    by (intro s; unfold w1; rewrite ep_put_ep; destruct s; reflexivity).
  assert (S1 : w1.(sockets) = w.(sockets)) by apply sockets_put_ep.
  assert (Ep : forall s, ep s (put_sockets [] w2) = ep s w2) by (intros []; reflexivity).
  split; [reflexivity|split; [reflexivity|]].
  split; [|split; [|split]].
  - rewrite Ep, E, E1. cbn [sock_eqb].
    destruct (existsb _ _); reflexivity.
  - intros s Hs. rewrite Ep, E, S1. apply existsb_sock_In in Hs. rewrite Hs. reflexivity.
  - intros s Hl Hs. rewrite Ep, E, S1, E1.
    destruct (existsb (sock_eqb s) w.(sockets)) eqn:X;
      [apply existsb_sock_In in X; contradiction|].
    destruct s; [congruence|reflexivity|reflexivity].
  - intro s. rewrite Ep, E, E1.
    destruct (existsb _ _), (sock_eqb s Listener); repeat split.
Qed.

(** ** [main] *)

(** X16: [main] started with the decimal text of an integer [p] as its one
    argument calls [server(p)] when [1024 <= p <= 65535] and reports an
    invalid port otherwise; when that text has more than [MAX_STR_DIGITS]
    digits, [int(args[1])] raises [ValueError], which [main] does not
    catch. *)
Theorem main_decimal_port (name : str) (p : Z) :
  main [name; z_to_str p]
  = if (int_digits p <=? MAX_STR_DIGITS)%nat
    then if (MIN_PORT <=? p)%Z && (p <=? MAX_PORT)%Z then Serve p else InvalidPort p
    else MainRaise ValueError.
Proof.
  unfold main. cbn [length nth Nat.eqb negb]. rewrite (proj2 (z_to_str_ok p)).
  destruct (int_digits p <=? MAX_STR_DIGITS)%nat; [|reflexivity].
  unfold MIN_PORT, MAX_PORT.
  destruct (p <? 1024)%Z eqn:A, (p >? 65535)%Z eqn:B, (1024 <=? p)%Z eqn:C, (p <=? 65535)%Z eqn:D;
    cbn; try reflexivity; lia.
Qed.

(** ** Reading the request header in [worker] *)

Lemma recv_from_timeout (n : nat) (l : list chunk) (fin : bool) :
  snd (recv_from n l fin) = Raise TimeoutError -> fst (recv_from n l fin) = [].
Proof.
  induction l as [|[[|x d]|] r IH]; cbn; try discriminate.
  - destruct fin; [discriminate|reflexivity].
  - exact IH.
Qed.

(** [recv] touches only the inbox of its socket: what it returns is what
    the inbox loses, and a zero-length read or a timeout leaves the inbox
    empty. *)
Lemma recv_spec (s : sock) (w : world) :
  let (w1, r) := recv s BUF_SIZE w in
  (forall s', s' <> s -> ep s' w1 = ep s' w) /\ w1.(sockets) = w.(sockets)
  /\ (ep s w1).(sent) = (ep s w).(sent) /\ (ep s w1).(is_open) = (ep s w).(is_open)
  /\ match r with
     | Ok d => flat (ep s w).(inbox) = d ++ flat (ep s w1).(inbox)
               /\ (d = [] -> (ep s w1).(inbox) = [])
     | Raise e => flat (ep s w).(inbox) = flat (ep s w1).(inbox)
                  /\ (e = TimeoutError -> (ep s w1).(inbox) = [])
     | NoFuel => False
     end.
Proof.
  unfold recv. destruct (is_open (ep s w)) eqn:Eo.
  - pose proof (recv_from_spec BUF_SIZE (inbox (ep s w)) (eof (ep s w))
                  ltac:(unfold BUF_SIZE; lia)) as R.
    pose proof (recv_from_timeout BUF_SIZE (inbox (ep s w)) (eof (ep s w))) as T.
    destruct (recv_from BUF_SIZE (inbox (ep s w)) (eof (ep s w))) as [l r]. cbn in T.
    split; [intros s' N; rewrite ep_put_ep; destruct s, s'; try congruence; reflexivity|].
    split; [apply sockets_put_ep|].
    rewrite ep_put_ep. replace (sock_eqb s s) with true by (destruct s; reflexivity). cbn.
    split; [reflexivity|split; [reflexivity|]].
    destruct r as [d|e|]; [|split; [exact R|intros ->; apply T; reflexivity]|contradiction].
    destruct R as [R1 R2]. split; [exact R1|intro D; apply R2, D].
  - repeat split; try congruence.
Qed.

Lemma read_header_spec (fuel : nat) (delim buf : bytes) (w : world) :
  match read_header fuel delim buf w with
  | (w', Ok (d, b)) =>
      d = delim /\ (contains delim b = true \/ contains LFLF b = true)
      /\ exists moved, b = buf ++ moved
                       /\ flat (ep Client w).(inbox) = moved ++ flat (ep Client w').(inbox)
  | _ => True
  end.
Proof.
  revert buf w. induction fuel as [|f IH]; intros buf w; [exact I|].
  cbn [read_header].
  destruct (negb (contains delim buf) && negb (contains LFLF buf)) eqn:G.
  - apply andb_true_iff in G as [_ G]. apply negb_true_iff in G. rewrite G.
    unfold bind. pose proof (recv_spec Client w) as R.
    destruct (recv Client BUF_SIZE w) as [w1 r].
    destruct R as (_ & _ & _ & _ & R).
    destruct r as [d|e|]; [|exact I|exact I].
    specialize (IH (buf ++ d) w1).
    destruct (read_header f delim (buf ++ d) w1) as [w' [[d' b]| |]]; [|exact I|exact I].
    destruct IH as (A & B & moved & C & D). split; [exact A|split; [exact B|]].
    exists (d ++ moved). split.
    + rewrite C. symmetry. apply app_assoc.
    + destruct R as [R _]. rewrite R, D. apply app_assoc.
  - unfold ret. split; [reflexivity|split].
    + destruct (contains delim buf), (contains LFLF buf); cbn in G; try discriminate; auto.
    + exists []. split; [symmetry; apply app_nil_r|reflexivity].
Qed.

(** X17: when the header loop of [worker] ends normally, the delimiter it
    returns is the one it started with (the switch to [\n\n] never happens),
    the buffer contains that delimiter or [\n\n], and it is the starting
    buffer followed by exactly the bytes read from the client. *)
Theorem read_header_result (fuel : nat) (delim buf : bytes) (w : world) :
  match read_header fuel delim buf w with
  | (w', Ok (d, b)) =>
      d = delim /\ (contains delim b = true \/ contains LFLF b = true)
      /\ exists moved, b = buf ++ moved
                       /\ flat (ep Client w).(inbox) = moved ++ flat (ep Client w').(inbox)
  | _ => True
  end.
Proof. apply read_header_spec. Qed.

Lemma split1_absent (p s : bytes) : contains p s = false -> split1 p s = [s].
Proof.
  induction s as [|c t IH]; intro H.
  - cbn in H |- *. rewrite orb_false_r in H. rewrite H. reflexivity.
  - cbn [contains] in H. apply orb_false_iff in H as [H1 H2].
    cbn [split1]. rewrite H1, IH by exact H2. reflexivity.
Qed.

(** X18: when the header read from the client ends in [\n\n] and contains no
    [\r\n\r\n], [worker] raises [IndexError] at [packet_buf[1]], right after
    the header loop, before touching any socket. *)
Theorem worker_lf_index_error (fuel : nat) (w w1 : world) (d b : bytes) :
  read_header fuel CRLFCRLF [] w = (w1, Ok (d, b)) -> contains CRLFCRLF b = false ->
  worker fuel w = (w1, Raise IndexError).
Proof.
  intros E C.
  pose proof (read_header_spec fuel CRLFCRLF [] w) as S. rewrite E in S.
  destruct S as (-> & _).
  unfold worker, bind at 1, try_except, bind at 1. rewrite E.
  unfold ret. cbv beta iota. rewrite split1_absent by exact C. reflexivity.
Qed.

Lemma worker_lf_index_error_witness :
  match read_header 10 CRLFCRLF [] (accepted_world sample_request_lf sample_response) with
  | (w1, Ok (d, b)) =>
      contains CRLFCRLF b = false
      /\ worker 10 (accepted_world sample_request_lf sample_response) = (w1, Raise IndexError)
  | _ => False
  end.
Proof.
  destruct (read_header 10 CRLFCRLF [] (accepted_world sample_request_lf sample_response))
    as [w1 [[d b]|e|]] eqn:E; [|vm_compute in E; discriminate|vm_compute in E; discriminate].
  assert (C : contains CRLFCRLF b = false).
  { vm_compute in E. injection E as _ _ <-. vm_compute. reflexivity. }
  split; [exact C|exact (worker_lf_index_error 10 _ w1 d b E C)].
Defined.

(** ** The loops of [process_non_connection_request] *)

Lemma send_open (s : sock) (d : bytes) (w : world) :
  (ep s w).(is_open) = true ->
  send s d w = (put_ep s (mkEndpoint true (ep s w).(inbox) (ep s w).(eof) ((ep s w).(sent) ++ d)) w,
                Ok tt).
Proof. intro H. unfold send. rewrite H. reflexivity. Qed.

Lemma sock_eqb_refl (s : sock) : sock_eqb s s = true.
Proof. destruct s; reflexivity. Qed.

(** One forwarded chunk: [src] gives [d], [dst] gets it. *)
Lemma flow_step (src dst : sock) (w w1 : world) (d : bytes) :
  src <> dst -> flat (ep src w).(inbox) = d ++ flat (ep src w1).(inbox) ->
  ep dst w1 = ep dst w ->
  flow src dst w (put_ep dst (mkEndpoint true (ep dst w1).(inbox) (ep dst w1).(eof)
                                ((ep dst w1).(sent) ++ d)) w1).
Proof.
  intros N F E. exists d. rewrite !ep_put_ep, sock_eqb_refl.
  replace (sock_eqb src dst) with false by (destruct src, dst; cbn; congruence).
  cbn. rewrite E. split; [exact F|reflexivity].
Qed.

Lemma flow_none (src dst : sock) (w w1 : world) :
  flat (ep src w).(inbox) = flat (ep src w1).(inbox) -> ep dst w1 = ep dst w -> flow src dst w w1.
Proof. intros F E. exists []. rewrite E, app_nil_r. split; [exact F|reflexivity]. Qed.

(** X19: the request-body loop forwards to the destination exactly the bytes
    it reads from the client, in order, whatever they contain; when it ends
    normally the client has nothing left to deliver. *)
Theorem forward_body_forwards (fuel : nat) (w : world) :
  (ep Dest w).(is_open) = true ->
  let (w', r) := forward_body fuel [] w in
  flow Client Dest w w' /\ (r = Ok tt -> (ep Client w').(inbox) = []).
Proof.
  revert w. induction fuel as [|f IH]; intros w Ho.
  - split; [apply flow_refl|discriminate].
  - cbn [forward_body]. change (contains CRLFCRLF []) with false. cbv iota.
    unfold bind at 1, try_except, bind at 1.
    pose proof (recv_spec Client w) as R.
    destruct (recv Client BUF_SIZE w) as [w1 r].
    destruct R as (Oth & _ & _ & _ & R).
    assert (D1 : ep Dest w1 = ep Dest w) by (apply Oth; discriminate).
    destruct r as [[|b d]|e|]; [| |destruct e|contradiction]; unfold ret;
      try (destruct R as [R1 R2]; split; [apply flow_none; [exact R1|exact D1]|]);
      try (intros _; apply R2; reflexivity);
      try discriminate.
    destruct R as [R1 _]. unfold bind at 1. rewrite send_open by (rewrite D1; exact Ho).
    set (w2 := put_ep Dest _ w1).
    assert (F : flow Client Dest w w2) by (apply flow_step; [discriminate|exact R1|exact D1]).
    specialize (IH w2 ltac:(unfold w2; rewrite ep_put_ep; reflexivity)).
    destruct (forward_body f [] w2) as [w' r'].
    destruct IH as [IH1 IH2]. split; [exact (flow_trans _ _ _ _ _ F IH1)|exact IH2].
Qed.

Lemma forward_body_forwards_witness :
  (ep Dest handler_world).(is_open) = true
  /\ let (w', r) := forward_body 5 [] handler_world in
     flow Client Dest handler_world w' /\ (r = Ok tt -> (ep Client w').(inbox) = []).
Proof.
  assert (H : (ep Dest handler_world).(is_open) = true) by reflexivity.
  split; [exact H|exact (forward_body_forwards 5 handler_world H)].
Defined.

(** X20: the response-payload loop forwards to the client exactly the bytes
    it reads from the destination, in order; when it ends normally the
    destination has nothing left to deliver. *)
Theorem relay_payload_forwards (fuel : nat) (w : world) :
  (ep Client w).(is_open) = true ->
  let (w', r) := relay_payload fuel w in
  flow Dest Client w w' /\ (r = Ok tt -> (ep Dest w').(inbox) = []).
Proof.
  revert w. induction fuel as [|f IH]; intros w Ho.
  - split; [apply flow_refl|discriminate].
  - cbn [relay_payload]. unfold bind at 1, try_except, bind at 1.
    pose proof (recv_spec Dest w) as R.
    destruct (recv Dest BUF_SIZE w) as [w1 r].
    destruct R as (Oth & _ & _ & _ & R).
    assert (D1 : ep Client w1 = ep Client w) by (apply Oth; discriminate).
    destruct r as [[|b d]|e|]; [| |destruct e|contradiction]; unfold ret;
      try (destruct R as [R1 R2]; split; [apply flow_none; [exact R1|exact D1]|]);
      try (intros _; apply R2; reflexivity);
      try discriminate.
    destruct R as [R1 _]. unfold bind at 1. rewrite send_open by (rewrite D1; exact Ho).
    set (w2 := put_ep Client _ w1).
    assert (F : flow Dest Client w w2) by (apply flow_step; [discriminate|exact R1|exact D1]).
    specialize (IH w2 ltac:(unfold w2; rewrite ep_put_ep; reflexivity)).
    destruct (relay_payload f w2) as [w' r'].
    destruct IH as [IH1 IH2]. split; [exact (flow_trans _ _ _ _ _ F IH1)|exact IH2].
Qed.

Lemma relay_payload_forwards_witness :
  (ep Client handler_world).(is_open) = true
  /\ let (w', r) := relay_payload 5 handler_world in
     flow Dest Client handler_world w' /\ (r = Ok tt -> (ep Dest w').(inbox) = []).
Proof.
  assert (H : (ep Client handler_world).(is_open) = true) by reflexivity.
  split; [exact H|exact (relay_payload_forwards 5 handler_world H)].
Defined.

(** X21: the response-header loop leaves the client socket alone and returns
    the starting buffer followed by exactly the bytes read from the
    destination; that result contains a blank line or the destination has
    nothing left to deliver. *)
Theorem read_response_result (fuel : nat) (resp_buf : bytes) (w : world) :
  let (w', r) := read_response fuel resp_buf w in
  ep Client w' = ep Client w
  /\ match r with
     | Ok buf =>
         (exists moved, buf = resp_buf ++ moved
                        /\ flat (ep Dest w).(inbox) = moved ++ flat (ep Dest w').(inbox))
         /\ (contains CRLFCRLF buf = true \/ (ep Dest w').(inbox) = [])
     | _ => True
     end.
Proof.
  revert resp_buf w. induction fuel as [|f IH]; intros buf w; [split; [reflexivity|exact I]|].
  cbn [read_response]. destruct (contains CRLFCRLF buf) eqn:C.
  - unfold ret. split; [reflexivity|]. split; [|left; exact C].
    exists []. split; [symmetry; apply app_nil_r|reflexivity].
  - unfold bind at 1, try_except, bind at 1.
    pose proof (recv_spec Dest w) as R.
    destruct (recv Dest BUF_SIZE w) as [w1 r].
    destruct R as (Oth & _ & _ & _ & R).
    assert (D1 : ep Client w1 = ep Client w) by (apply Oth; discriminate).
    destruct r as [[|b d]|e|]; [| |destruct e|contradiction]; unfold ret;
      try (split; [exact D1|exact I]);
      try (destruct R as [R1 R2]; split; [exact D1|split;
             [exists []; split; [symmetry; apply app_nil_r|exact R1]
             |right; apply R2; reflexivity]]).
    destruct R as [R1 _].
    specialize (IH (buf ++ b :: d) w1).
    destruct (read_response f (buf ++ b :: d) w1) as [w' r'].
    destruct IH as [IH1 IH2]. split; [rewrite IH1; exact D1|].
    destruct r' as [buf'| |]; [|exact I|exact I].
    destruct IH2 as [(moved & M1 & M2) IH3]. split; [|exact IH3].
    exists ((b :: d) ++ moved). split.
    + rewrite M1. symmetry. apply app_assoc.
    + rewrite R1, M2. apply app_assoc.
Qed.

Lemma cleanup_both_socks (l : list sock) :
  NoDup l -> ~ In Client (remove_first Client (remove_first Dest l))
             /\ ~ In Dest (remove_first Client (remove_first Dest l)).
Proof.
  intro H. split.
  - apply remove_first_notin, remove_first_NoDup, H.
  - intro Hin. apply remove_first_In in Hin. revert Hin. apply remove_first_notin, H.
Qed.

(** X22: for every header, [process_non_connection_request] returns normally
    with both sockets closed and out of the socket list and nothing sent to
    either peer: it always stops at the lookup of the missing method
    [change_path_to_relative]. *)
Theorem pncr_always_aborts (fuel : nat) (h : HTTPHeader) (buf : bytes) (w : world) :
  NoDup w.(sockets) -> aborted w (process_non_connection_request fuel h buf w).
Proof.
  intro Hnd.
  destruct (get_host_port h) as [hp|e|] eqn:H.
  2: { exact (proj2 (handlers_abort fuel h buf w e H Hnd)). }
  2: { exfalso. exact (get_host_port_total h H). }
  unfold process_non_connection_request, try_finally, try_except, bind at 1, lift; rewrite H.
  unfold bind at 1. rewrite lookup_change_path.
  destruct w as [socks lis [co ci ce cs] [dop di de ds] conn reach]; cbn in Hnd.
  destruct (cleanup_both_socks socks Hnd) as [U1 U2].
  unfold connect, settimeout, raise, bind. cbn.
  repeat match goal with |- context [if ?b then _ else _] => destruct b end; cbn;
    unfold aborted, unregistered; cbn; repeat split; assumption.
Qed.

Lemma pncr_always_aborts_witness :
  NoDup handler_world.(sockets)
  /\ aborted handler_world (process_non_connection_request 5 sample_port [] handler_world).
Proof.
  assert (H : NoDup handler_world.(sockets))
    by (constructor; [cbn; intuition discriminate|constructor; [intros []|constructor]]).
  split; [exact H|exact (pncr_always_aborts 5 sample_port [] handler_world H)].
Defined.
